(** * Slug generation, the slug trigger and the public card page

    A shallow embedding of
    - [supabase/migrations/20250831154623_billowing_hill.sql]:
      the PL/pgSQL functions [generate_unique_slug] and [set_card_slug];
    - the [PublicCard] component: [loadCardData] and [trackCardView].

    PostgreSQL [text] is modelled as [string] (a sequence of bytes; every
    byte of a multi-byte character lies outside [[a-zA-Z0-9]], so a run of
    such characters and the run of their bytes are replaced alike), SQL
    NULL as [None], the PL/pgSQL [integer] counter as a [Z] whose
    increment raises past 2147483647, JavaScript objects as finite maps
    from property names to values. *)

From Stdlib Require Import ZArith List Bool Lia Ascii String.
From Stdlib Require Import DecimalString DecimalZ Finite.
From stdpp Require Import gmap strings.
Import ListNotations.

(* ===================================================================== *)
(** ** PostgreSQL text primitives *)
(* ===================================================================== *)

Module Text.

Local Open Scope string_scope.

Definition text := string.

Definition hyphen : ascii := "-"%char.

Definition code_in (lo hi : N) (c : ascii) : bool :=
  (N.leb lo (N_of_ascii c) && N.leb (N_of_ascii c) hi)%bool.

Definition is_digit (c : ascii) : bool := code_in 48 57 c.
Definition is_upper (c : ascii) : bool := code_in 65 90 c.
Definition is_lower (c : ascii) : bool := code_in 97 122 c.

(** The bracket expression [[a-zA-Z0-9]]. *)
Definition is_alnum (c : ascii) : bool :=
  (is_lower c || is_upper c || is_digit c)%bool.

(** The class [[a-z0-9]] of the characters a slug is built from. *)
Definition is_slug_alnum (c : ascii) : bool :=
  (is_lower c || is_digit c)%bool.

(** The class [[a-z0-9-]]. *)
Definition is_slug_char (c : ascii) : bool :=
  (is_slug_alnum c || Ascii.eqb c hyphen)%bool.

(** [lower] on one character.  After [regexp_replace] only ASCII letters,
    digits and hyphens are left, on which [lower] maps A-Z to a-z (in
    every locale but those, Turkish and Azeri, that lower I to a dotless
    i; the database is taken not to run under one of them). *)
Definition lower_char (c : ascii) : ascii :=
  if is_upper c then ascii_of_N (N_of_ascii c + 32) else c.

Fixpoint lower (s : text) : text :=
  match s with
  | EmptyString => EmptyString
  | String c r => String (lower_char c) (lower r)
  end.

(** [regexp_replace(s, '[^a-zA-Z0-9]+', '-', 'g')]: every maximal run of
    characters outside the class becomes one hyphen.  [in_run] tells that
    the run the scan is in has already produced its hyphen. *)
Fixpoint replace_runs (in_run : bool) (s : text) : text :=
  match s with
  | EmptyString => EmptyString
  | String c r =>
      if is_alnum c then String c (replace_runs false r)
      else if in_run then replace_runs true r
      else String hyphen (replace_runs true r)
  end.

Definition regexp_replace_non_alnum (s : text) : text := replace_runs false s.

(** [trim(leading '-' from s)] and [trim(trailing '-' from s)]. *)
Fixpoint ltrim_hyphen (s : text) : text :=
  match s with
  | EmptyString => EmptyString
  | String c r => if Ascii.eqb c hyphen then ltrim_hyphen r else s
  end.

Fixpoint rtrim_hyphen (s : text) : text :=
  match s with
  | EmptyString => EmptyString
  | String c r =>
      let r' := rtrim_hyphen r in
      if (Ascii.eqb c hyphen && String.eqb r' EmptyString)%bool
      then EmptyString else String c r'
  end.

(** [trim(both '-' from s)]. *)
Definition btrim_hyphen (s : text) : text := rtrim_hyphen (ltrim_hyphen s).

(** [substr(s, 1, n)]: the first [n] characters (positions count from 1). *)
Definition substr_prefix (s : text) (n : nat) : text := String.substring 0 n s.

(** The cast of an [integer] to [text]: decimal digits, a sign if negative. *)
Definition int4_to_text (z : Z) : text := NilEmpty.string_of_int (Z.to_int z).

Fixpoint all_chars (p : ascii -> bool) (s : text) : bool :=
  match s with
  | EmptyString => true
  | String c r => (p c && all_chars p r)%bool
  end.

Definition starts_with_hyphen (s : text) : bool :=
  match s with
  | String c _ => Ascii.eqb c hyphen
  | EmptyString => false
  end.

Fixpoint ends_with_hyphen (s : text) : bool :=
  match s with
  | EmptyString => false
  | String c EmptyString => Ascii.eqb c hyphen
  | String _ r => ends_with_hyphen r
  end.

(** A text that matches [[a-z0-9-]+]. *)
Definition matches_slug_class (s : text) : bool :=
  (negb (String.eqb s EmptyString) && all_chars is_slug_char s)%bool.

(** A text that matches [[a-z0-9-]+] and neither starts nor ends with a
    hyphen. *)
Definition well_formed_slug (s : text) : bool :=
  (matches_slug_class s && negb (starts_with_hyphen s) &&
   negb (ends_with_hyphen s))%bool.

(** Texts over [[a-z0-9-]] in which no two hyphens are adjacent; with
    [after_hyphen] the text does not start with a hyphen either. *)
Fixpoint hyphen_separated (after_hyphen : bool) (s : text) : bool :=
  match s with
  | EmptyString => true
  | String c r =>
      if is_slug_alnum c then hyphen_separated false r
      else (Ascii.eqb c hyphen && negb after_hyphen && hyphen_separated true r)%bool
  end.

End Text.

(* ===================================================================== *)
(** ** SQL values: NULL and three-valued conditions *)
(* ===================================================================== *)

Module Sql.

(** A condition is TRUE, FALSE or NULL ([None]). *)
Definition tv := option bool.

Definition sql_and (a b : tv) : tv :=
  match a, b with
  | Some false, _ | _, Some false => Some false
  | Some true, Some true => Some true
  | _, _ => None
  end.

Definition sql_or (a b : tv) : tv :=
  match a, b with
  | Some true, _ | _, Some true => Some true
  | Some false, Some false => Some false
  | _, _ => None
  end.

Definition is_null {A} (a : option A) : tv :=
  match a with None => Some true | Some _ => Some false end.

(** [a = b] and [a != b]: NULL as soon as one side is NULL. *)
Definition sql_eq {A} (eqb : A -> A -> bool) (a b : option A) : tv :=
  match a, b with
  | Some x, Some y => Some (eqb x y)
  | _, _ => None
  end.

Definition sql_neq {A} (eqb : A -> A -> bool) (a b : option A) : tv :=
  match a, b with
  | Some x, Some y => Some (negb (eqb x y))
  | _, _ => None
  end.

(** [a || b] on text. *)
Definition sql_concat (a b : option Text.text) : option Text.text :=
  match a, b with
  | Some x, Some y => Some (String.append x y)
  | _, _ => None
  end.

(** [COALESCE(a, d)]. *)
Definition coalesce {A} (a : option A) (d : A) : A :=
  match a with Some x => x | None => d end.

(** IF, WHILE and WHERE take the branch only on TRUE. *)
Definition holds (c : tv) : bool :=
  match c with Some true => true | _ => false end.

(** What a PL/pgSQL call comes to: a value, an error raised, or, in this
    model only, a loop that was cut by its fuel. *)
Inductive sql_error : Type :=
  | integer_out_of_range.

Inductive outcome (A : Type) : Type :=
  | Returned (a : A)
  | Raised (e : sql_error)
  | OutOfFuel.

Arguments Returned {A} a.
Arguments Raised {A} e.
Arguments OutOfFuel {A}.

#[export] Instance outcome_ret : MRet outcome := fun A a => Returned a.

#[export] Instance outcome_bind : MBind outcome := fun A B k m =>
  match m with
  | Returned a => k a
  | Raised e => Raised e
  | OutOfFuel => OutOfFuel
  end.

(** The PL/pgSQL type [integer] is [int4]. *)
Definition int4_min : Z := -2147483648.
Definition int4_max : Z := 2147483647.

(** [a + b] on [integer]: the sum, or the error past either bound. *)
Definition int4_add (a b : Z) : outcome Z :=
  if ((int4_min <=? a + b) && (a + b <=? int4_max))%Z%bool
  then Returned (a + b)%Z
  else Raised integer_out_of_range.

End Sql.

(* ===================================================================== *)
(** ** The migration: [generate_unique_slug] and [set_card_slug] *)
(* ===================================================================== *)

Module Slug.

Import Text Sql.
Local Open Scope string_scope.

(** A [uuid] is its 128-bit value. *)
Definition uuid := N.

Definition hex_alphabet : list ascii :=
  list_ascii_of_string "0123456789abcdef".

Definition hex_digit (v : N) : ascii :=
  nth (N.to_nat (v mod 16)) hex_alphabet "0"%char.

(** The [len] low hexadecimal digits of [v], the most significant first. *)
Fixpoint hex_digits (len : nat) (v : N) : text :=
  match len with
  | O => EmptyString
  | S k => String (hex_digit (v / 16 ^ N.of_nat k)%N) (hex_digits k v)
  end.

(** [u::text]: lower-case hexadecimal in groups of 8-4-4-4-12. *)
Definition uuid_text (u : uuid) : text :=
  hex_digits 8 (u / 2 ^ 96)%N ++ "-" ++ hex_digits 4 (u / 2 ^ 80)%N ++ "-" ++
  hex_digits 4 (u / 2 ^ 64)%N ++ "-" ++ hex_digits 4 (u / 2 ^ 48)%N ++ "-" ++
  hex_digits 12 u.

(** A row of [business_cards]: the columns the two functions read, and
    the remaining ones by name. *)
Record business_card : Type := {
  user_id : option uuid;
  slug : option text;
  title : option text;
  other_columns : list (string * option text)
}.

Definition with_slug (r : business_card) (s : option text) : business_card :=
  {| user_id := user_id r; slug := s; title := title r;
     other_columns := other_columns r |}.

(** Lines 40-41: the base slug of an input text. *)
Definition slug_base (input_text : text) : text :=
  btrim_hyphen (lower (regexp_replace_non_alnum input_text)).

(** The WHERE clause of lines 54-55 on one row. *)
Definition slug_conflict (user_id_param : option uuid) (final_slug : option text)
    (r : business_card) : bool :=
  holds (sql_and (sql_eq String.eqb (slug r) final_slug)
                 (sql_or (is_null user_id_param)
                         (sql_neq N.eqb (user_id r) user_id_param))).

(** [EXISTS (SELECT 1 FROM business_cards WHERE ...)]. *)
Definition slug_exists (rows : list business_card) (user_id_param : option uuid)
    (final_slug : option text) : bool :=
  existsb (slug_conflict user_id_param final_slug) rows.

(** The WHILE loop of lines 52-59; one unit of [fuel] per test of its
    condition. *)
Fixpoint probe (rows : list business_card) (user_id_param : option uuid)
    (base_slug : option text) (fuel : nat) (counter : Z)
    (final_slug : option text) : outcome (option text) :=
  match fuel with
  | O => OutOfFuel
  | S fuel' =>
      if slug_exists rows user_id_param final_slug then
        counter' ← int4_add counter 1;
        probe rows user_id_param base_slug fuel' counter'
          (sql_concat (sql_concat base_slug (Some "-"))
                      (Some (int4_to_text counter')))
      else Returned final_slug
  end.

(** [generate_unique_slug(input_text, table_name, user_id_param)] over the
    rows of [business_cards]; [draw] is what [gen_random_uuid()] yields
    if it is called.  The loop tests at most one candidate more than
    there are rows ([SlugFacts.probe_fuel_enough]). *)
Definition generate_unique_slug (rows : list business_card) (draw : uuid)
    (input_text : option text) (table_name : text)
    (user_id_param : option uuid) : outcome (option text) :=
  let base_slug :=
    option_map (fun s => lower (regexp_replace_non_alnum s)) input_text in
  let base_slug := option_map btrim_hyphen base_slug in
  let base_slug :=
    if holds (sql_eq String.eqb base_slug (Some ""))
    then Some ("card-" ++ substr_prefix (uuid_text draw) 8)
    else base_slug in
  probe rows user_id_param base_slug (S (List.length rows)) 0 base_slug.

Inductive tg_op : Type := INSERT | UPDATE.

(** The trigger function [set_card_slug]: the row to write in place of
    [NEW].  [OLD] is absent on INSERT, where its columns read as NULL. *)
Definition set_card_slug (rows : list business_card) (draw : uuid)
    (TG_OP : tg_op) (OLD : option business_card) (NEW : business_card)
    : outcome business_card :=
  if holds (sql_or (is_null (slug NEW)) (sql_eq String.eqb (slug NEW) (Some "")))
  then
    s ← generate_unique_slug rows draw (Some (coalesce (title NEW) "card"))
          "business_cards" (user_id NEW);
    mret (with_slug NEW s)
  else
    match TG_OP with
    | UPDATE =>
        if holds (sql_neq String.eqb (OLD ≫= slug) (slug NEW)) then
          s ← generate_unique_slug rows draw (slug NEW) "business_cards"
                (user_id NEW);
          mret (with_slug NEW s)
        else mret NEW
    | INSERT =>
        s ← generate_unique_slug rows draw (slug NEW) "business_cards"
              (user_id NEW);
        mret (with_slug NEW s)
    end.

(** The candidates in the order the loop tests them: the base, then the
    base with [-1], [-2], ... appended. *)
Definition candidate (base_slug : text) (counter : Z) : text :=
  if (counter =? 0)%Z then base_slug
  else base_slug ++ "-" ++ int4_to_text counter.

(** A row that stands in the way of [cand]: it holds exactly that slug
    and belongs to a user other than the excluded one. *)
Definition conflicting (excluded_owner : option uuid) (cand : text)
    (r : business_card) : Prop :=
  slug r = Some cand /\
  match excluded_owner with
  | None => True
  | Some u => exists v, user_id r = Some v /\ v <> u
  end.

(** The loop's condition on the candidate of [counter]. *)
Definition taken (rows : list business_card) (excluded_owner : option uuid)
    (base_slug : text) (counter : Z) : bool :=
  slug_exists rows excluded_owner (Some (candidate base_slug counter)).

(** The base slug after lines 40-46: the normalized input, or the
    fallback built from [draw] when that is empty. *)
Definition effective_base (draw : uuid) (input_text : text) : text :=
  if String.eqb (slug_base input_text) ""
  then "card-" ++ substr_prefix (uuid_text draw) 8
  else slug_base input_text.

Definition card (owner : option uuid) (s : option text) (t : option text)
    : business_card :=
  {| user_id := owner; slug := s; title := t; other_columns := [] |}.

(** The table that holds every candidate of [base_slug] an [integer]
    counter can reach, one card per user: the candidate of [n] belongs
    to the user [first_owner + n]. *)
Definition saturated_table (base_slug : text) (first_owner : uuid)
    : list business_card :=
  List.map (fun n => card (Some (first_owner + N.of_nat n)%N)
                       (Some (candidate base_slug (Z.of_nat n))) None)
           (seq 0 (Z.to_nat 2147483648)).

End Slug.

(* ===================================================================== *)
(** ** The public card page: [loadCardData] and [trackCardView] *)
(* ===================================================================== *)

Module PublicCard.

Local Open Scope string_scope.

(** The JavaScript values that travel between the page and the storage
    client.  Numbers are the integers (exact below 2^53) and NaN. *)
Inductive jsval : Type :=
  | JUndefined
  | JNull
  | JBool (b : bool)
  | JNum (n : Z)
  | JNaN
  | JStr (s : string).

(** An object, and a row as the client returns it: properties by name. *)
Abbreviation jsobj := (gmap string jsval).

(** [o.k]: a property that is absent reads as [undefined]. *)
Definition get (o : jsobj) (k : string) : jsval := default JUndefined (o !! k).

Definition truthy (v : jsval) : bool :=
  match v with
  | JUndefined | JNull | JNaN => false
  | JBool b => b
  | JNum n => negb (n =? 0)%Z
  | JStr s => negb (String.eqb s "")
  end.

(** [a || b]. *)
Definition js_or (a b : jsval) : jsval := if truthy a then a else b.

Definition to_number (v : jsval) : jsval :=
  match v with
  | JNull | JBool false => JNum 0
  | JBool true => JNum 1
  | JNum n => JNum n
  | _ => JNaN
  end.

(** [a + n] for a number [n]: text is extended, anything else is added as
    a number. *)
Definition js_add_num (a : jsval) (n : Z) : jsval :=
  match a with
  | JStr s => JStr (s ++ Text.int4_to_text n)
  | _ => match to_number a with
         | JNum m => JNum (m + n)
         | _ => JNaN
         end
  end.

(** An object literal; a property set to [undefined] is not sent. *)
Definition object (props : list (string * jsval)) : jsobj :=
  foldr (fun kv acc =>
           match kv.2 with
           | JUndefined => acc
           | v => <[kv.1 := v]> acc
           end) ∅ props.

(** The tables the page reads and writes. *)
Record database : Type := {
  business_cards : list jsobj;
  social_links : list jsobj;
  media_items : list jsobj;
  review_links : list jsobj;
  card_views : list jsobj
}.

(** What a request resolves to: [{ data, error }]. *)
Record response (A : Type) : Type := {
  data : option A;
  error : option string
}.

Arguments data {A} r.
Arguments error {A} r.

(** [.select('*')] keeps a row as it is, [.select('a,b')] only the
    columns named. *)
Inductive columns : Type :=
  | star
  | only (names : list string).

Definition select (c : columns) (r : jsobj) : jsobj :=
  match c with
  | star => r
  | only names =>
      foldr (fun n acc =>
               match r !! n with
               | Some v => <[n := v]> acc
               | None => acc
               end) ∅ names
  end.

(** The comparison of [.eq(column, value)]: SQL equality, which no NULL
    and no absent value satisfies. *)
Definition pg_eq (x v : jsval) : bool :=
  match x, v with
  | JBool a, JBool b => Bool.eqb a b
  | JNum a, JNum b => (a =? b)%Z
  | JStr a, JStr b => String.eqb a b
  | _, _ => false
  end.

Definition eq_ (column : string) (v : jsval) (rows : list jsobj) : list jsobj :=
  List.filter (fun r => pg_eq (get r column) v) rows.

(** [.single()]: the row when exactly one is left, an error otherwise. *)
Definition single (rows : list jsobj) : response jsobj :=
  match rows with
  | [r] => {| data := Some r; error := None |}
  | _ => {| data := None; error := Some "PGRST116" |}
  end.

Definition many (rows : list jsobj) : response (list jsobj) :=
  {| data := Some rows; error := None |}.

(** [a || []]. *)
Definition or_empty (a : option (list jsobj)) : list jsobj :=
  match a with Some l => l | None => [] end.

Record CardData : Type := {
  card : jsobj;
  socialLinks : list jsobj;
  mediaItems : list jsobj;
  reviews : list jsobj
}.

(** The part of the component's state the two functions touch. *)
Record state : Type := {
  cardData : option CardData;
  loading : bool;
  error_message : option string
}.

Definition initial_state : state :=
  {| cardData := None; loading := true; error_message := None |}.

(** [!cardId] on the route parameter, a string or [undefined]. *)
Definition missing (cardId : option string) : bool :=
  match cardId with
  | None => true
  | Some s => String.eqb s ""
  end.

Fixpoint contains (pattern s : string) : bool :=
  (String.prefix pattern s ||
   match s with
   | EmptyString => false
   | String _ r => contains pattern r
   end)%bool.

(** [/Mobile|Android|iPhone|iPad/.test(userAgent)]. *)
Definition is_mobile (userAgent : string) : bool :=
  (contains "Mobile" userAgent || contains "Android" userAgent ||
   contains "iPhone" userAgent || contains "iPad" userAgent)%bool.

(** [.eq('slug', cardId).eq('is_published', true)] on [business_cards]. *)
Definition published_matches (slug : string) (db : database) : list jsobj :=
  eq_ "is_published" (JBool true)
    (eq_ "slug" (JStr slug) (business_cards db)).

(** The query both functions start with. *)
Definition published_card (c : columns) (slug : string) (db : database)
    : response jsobj :=
  single (List.map (select c) (published_matches slug db)).

Section Component.

(** [.order(column, { ascending })], whatever order the storage gives. *)
Variable order : string -> bool -> list jsobj -> list jsobj.

Definition loadCardData (cardId : option string) (db : database) (st : state)
    : state :=
  match cardId with
  | None => st
  | Some slug =>
      if missing cardId then st
      else
        let res := published_card star slug db in
        match error res with
        | Some _ =>
            {| cardData := cardData st; loading := false;
               error_message := Some "Card not found or not published" |}
        | None =>
            match data res with
            | None =>
                {| cardData := cardData st; loading := false;
                   error_message :=
                     Some "Cannot read properties of null (reading 'id')" |}
            | Some row =>
                let social :=
                  many (order "display_order" true
                          (eq_ "is_active" (JBool true)
                             (eq_ "card_id" (get row "id") (social_links db)))) in
                let media :=
                  many (order "display_order" true
                          (eq_ "is_active" (JBool true)
                             (eq_ "type" (JStr "video")
                                (eq_ "card_id" (get row "id") (media_items db))))) in
                let review :=
                  many (order "created_at" false
                          (eq_ "is_active" (JBool true)
                             (eq_ "card_id" (get row "id") (review_links db)))) in
                {| cardData :=
                     Some {| card := row;
                             socialLinks := or_empty (data social);
                             mediaItems := or_empty (data media);
                             reviews := or_empty (data review) |};
                   loading := false;
                   error_message := error_message st |}
            end
        end
  end.

End Component.

(** [.update(payload).eq('id', id)] on [business_cards]. *)
Definition update_by_id (payload : jsobj) (id : jsval) (rows : list jsobj)
    : list jsobj :=
  List.map (fun r => if pg_eq (get r "id") id then payload ∪ r else r) rows.

(** The value [trackCardView] sends for [view_count], from the row its
    first query returned. *)
Definition next_view_count (row : jsobj) : jsval :=
  js_add_num (js_or (get row "view_count") (JNum 0)) 1.

(** [trackCardView]: the tables after the call.  Both writes are taken
    to go through. *)
Definition trackCardView (cardId : option string) (userAgent referrer : string)
    (db : database) : database :=
  match cardId with
  | None => db
  | Some slug =>
      if missing cardId then db
      else
        match data (published_card (only ["id"]) slug db) with
        | None => db
        | Some row =>
            let view :=
              object [("card_id", get row "id");
                      ("visitor_ip", JNull);
                      ("user_agent", JStr userAgent);
                      ("referrer", js_or (JStr referrer) JNull);
                      ("device_type",
                        JStr (if is_mobile userAgent then "mobile" else "desktop"))] in
            {| business_cards :=
                 update_by_id (object [("view_count", next_view_count row)])
                   (get row "id") (business_cards db);
               social_links := social_links db;
               media_items := media_items db;
               review_links := review_links db;
               card_views := card_views db ++ [view] |}
        end
  end.

End PublicCard.

(* ===================================================================== *)
(** ** The public card page: video links and what is shown *)
(* ===================================================================== *)

Module CardPage.

Import PublicCard.
Local Open Scope string_scope.

(** [s.startsWith(pattern)], and [s.includes(pattern)]: the pattern
    starts at some position of [s]. *)
Fixpoint starts_with (pattern s : string) : bool :=
  match pattern with
  | EmptyString => true
  | String a pattern' =>
      match s with
      | EmptyString => false
      | String b s' => (Ascii.eqb a b && starts_with pattern' s')%bool
      end
  end.

Fixpoint includes (pattern s : string) : bool :=
  (starts_with pattern s ||
   match s with
   | EmptyString => false
   | String _ r => includes pattern r
   end)%bool.

(** [s.split(sep)] for a separator that is not empty, read from left to
    right: [piece] is the part gathered since the last separator, [skip]
    the number of characters of a separator just found that are still to
    be passed.  The separators of this file are ASCII, so that cutting
    the UTF-8 bytes and cutting the characters agree. *)
Fixpoint split_from (sep : string) (skip : nat) (piece s : string)
    : list string :=
  match s with
  | EmptyString => [piece]
  | String c r =>
      match skip with
      | S k => split_from sep k piece r
      | O =>
          if starts_with sep s
          then piece :: split_from sep (String.length sep - 1) EmptyString r
          else split_from sep 0 (piece ++ String c EmptyString) r
      end
  end.

Definition split (sep s : string) : list string :=
  split_from sep 0 EmptyString s.

(** [url.split(sep)[1]?.split(stop)[0]]; [None] is [undefined]. *)
Definition video_id (sep stop url : string) : option string :=
  nth_error (split sep url) 1 ≫= fun rest => nth_error (split stop rest) 0.

(** A value inside a template literal. *)
Definition interpolate (v : option string) : string :=
  match v with Some s => s | None => "undefined" end.

Definition getYoutubeThumbnail (url : string) : string :=
  let videoId :=
    if includes "youtube.com/watch?v=" url then video_id "v=" "&" url
    else if includes "youtu.be/" url then video_id "youtu.be/" "?" url
    else Some "" in
  match videoId with
  | Some (String _ _ as id) =>
      "https://img.youtube.com/vi/" ++ id ++ "/hqdefault.jpg"
  | _ => ""
  end.

(** [None] is [null]. *)
Definition getVideoEmbedUrl (url : string) : option string :=
  if includes "youtube.com/watch?v=" url then
    Some ("https://www.youtube.com/embed/" ++ interpolate (video_id "v=" "&" url))
  else if includes "youtu.be/" url then
    Some ("https://www.youtube.com/embed/"
          ++ interpolate (video_id "youtu.be/" "?" url))
  else if includes "vimeo.com/" url then
    Some ("https://player.vimeo.com/video/"
          ++ interpolate (video_id "vimeo.com/" "?" url))
  else None.

Definition isYoutube (url : string) : bool :=
  (includes "youtube.com/watch?v=" url || includes "youtu.be/" url)%bool.

Definition isVimeo (url : string) : bool := includes "vimeo.com/" url.

(** What stands for one video of the card: the player in a frame, the
    thumbnail under a play button, or a plain play button. *)
Inductive tile : Type :=
  | Frame (src : string)
  | Thumbnail (src : string)
  | PlayButton.

(** The choice made for each of [mediaItems], from [item.url]. *)
Definition videoTile (url : string) : tile :=
  match getVideoEmbedUrl url with
  | Some (String _ _ as embedUrl) => Frame embedUrl
  | _ => if isYoutube url then Thumbnail (getYoutubeThumbnail url)
         else PlayButton
  end.

(** What the component returns: the spinner, the "Card Not Found" page
    with its message, or the card. *)
Inductive screen : Type :=
  | LoadingScreen
  | CardNotFound (message : string)
  | CardShown (cd : CardData).

Definition render (st : state) : screen :=
  if loading st then LoadingScreen
  else
    match error_message st, cardData st with
    | Some (String _ _ as e), _ => CardNotFound e
    | _, None =>
        CardNotFound
          "This digital business card does not exist or is not published yet."
    | _, Some cd => CardShown cd
    end.

End CardPage.

(* ===================================================================== *)
(** ** Facts about the text primitives *)
(* ===================================================================== *)

Module TextFacts.

Import Text.
Local Open Scope string_scope.

(** Goals about one character are settled on its 256 values. *)
Ltac by_cases_on_char c :=
  destruct c as [[] [] [] [] [] [] [] []]; vm_compute; congruence.

Lemma slug_alnum_is_alnum c : is_slug_alnum c = true -> is_alnum c = true.
Proof. by_cases_on_char c. Qed.

Lemma lower_char_slug_alnum c : is_slug_alnum c = true -> lower_char c = c.
Proof. by_cases_on_char c. Qed.

Lemma slug_alnum_not_hyphen c :
  is_slug_alnum c = true -> Ascii.eqb c hyphen = false.
Proof. by_cases_on_char c. Qed.

Lemma lower_char_alnum c :
  is_alnum c = true -> is_slug_alnum (lower_char c) = true.
Proof. by_cases_on_char c. Qed.

Lemma digit_is_slug_alnum c : is_digit c = true -> is_slug_alnum c = true.
Proof. by_cases_on_char c. Qed.

Lemma slug_alnum_is_slug_char c :
  is_slug_alnum c = true -> is_slug_char c = true.
Proof. unfold is_slug_char. intros ->. reflexivity. Qed.

Lemma hyphen_eqb c : Ascii.eqb c hyphen = true -> c = hyphen.
Proof. apply Ascii.eqb_eq. Qed.

Lemma hyphen_separated_weaken b s :
  hyphen_separated b s = true -> hyphen_separated false s = true.
Proof.
  destruct s as [|c r]; [reflexivity|]. cbn [hyphen_separated].
  destruct (is_slug_alnum c); [tauto|].
  destruct b; cbn; [|tauto].
  rewrite andb_false_r. discriminate.
Qed.

(** Lower-casing what [regexp_replace] leaves gives a text over
    [[a-z0-9-]] whose hyphens stand alone. *)
Lemma lower_replace_runs_separated s :
  forall b, hyphen_separated b (lower (replace_runs b s)) = true.
Proof.
  induction s as [|c r IH]; intros b; [reflexivity|].
  cbn [replace_runs]. destruct (is_alnum c) eqn:Hc.
  - cbn [lower hyphen_separated]. rewrite (lower_char_alnum c Hc). apply IH.
  - destruct b; [apply IH|].
    cbn [lower hyphen_separated].
    change (lower_char hyphen) with hyphen.
    change (is_slug_alnum hyphen) with false.
    cbn. apply IH.
Qed.

Lemma ltrim_separated_id s :
  hyphen_separated true s = true -> ltrim_hyphen s = s.
Proof.
  destruct s as [|c r]; [reflexivity|]. cbn [hyphen_separated ltrim_hyphen].
  destruct (is_slug_alnum c) eqn:Hc.
  - rewrite (slug_alnum_not_hyphen c Hc). reflexivity.
  - cbn. rewrite andb_false_r. discriminate.
Qed.

Lemma ltrim_separated b s :
  hyphen_separated b s = true -> hyphen_separated true (ltrim_hyphen s) = true.
Proof.
  destruct s as [|c r]; [reflexivity|]. cbn [hyphen_separated ltrim_hyphen].
  destruct (is_slug_alnum c) eqn:Hc.
  - rewrite (slug_alnum_not_hyphen c Hc). cbn [hyphen_separated].
    rewrite Hc. tauto.
  - intros H. apply andb_true_iff in H as [H Hr].
    apply andb_true_iff in H as [Hh _]. rewrite Hh.
    rewrite (ltrim_separated_id r Hr). exact Hr.
Qed.

Lemma rtrim_separated s :
  forall b, hyphen_separated b s = true ->
            hyphen_separated b (rtrim_hyphen s) = true.
Proof.
  induction s as [|c r IH]; intros b; [reflexivity|].
  cbn [rtrim_hyphen].
  destruct (Ascii.eqb c hyphen && String.eqb (rtrim_hyphen r) "")%bool;
    [reflexivity|].
  cbn [hyphen_separated]. destruct (is_slug_alnum c); [apply IH|].
  intros H. apply andb_true_iff in H as [H Hr]. rewrite H. apply IH, Hr.
Qed.

Lemma rtrim_idempotent s : rtrim_hyphen (rtrim_hyphen s) = rtrim_hyphen s.
Proof.
  induction s as [|c r IH]; [reflexivity|]. cbn [rtrim_hyphen].
  destruct (Ascii.eqb c hyphen && String.eqb (rtrim_hyphen r) "")%bool eqn:E;
    [reflexivity|].
  cbn [rtrim_hyphen]. rewrite IH, E. reflexivity.
Qed.

Lemma lower_separated_id s :
  forall b, hyphen_separated b s = true -> lower s = s.
Proof.
  induction s as [|c r IH]; intros b; [reflexivity|].
  cbn [hyphen_separated lower]. destruct (is_slug_alnum c) eqn:Hc.
  - intros H. rewrite (lower_char_slug_alnum c Hc), (IH _ H). reflexivity.
  - intros H. apply andb_true_iff in H as [H Hr].
    apply andb_true_iff in H as [Hh _]. apply hyphen_eqb in Hh. subst c.
    rewrite (IH _ Hr). reflexivity.
Qed.

Lemma replace_runs_separated_id s :
  forall b, hyphen_separated b s = true -> replace_runs b s = s.
Proof.
  induction s as [|c r IH]; intros b; [reflexivity|].
  cbn [hyphen_separated replace_runs]. destruct (is_slug_alnum c) eqn:Hc.
  - intros H. rewrite (slug_alnum_is_alnum c Hc), (IH _ H). reflexivity.
  - intros H. apply andb_true_iff in H as [H Hr].
    apply andb_true_iff in H as [Hh Hb]. apply hyphen_eqb in Hh. subst c.
    change (is_alnum hyphen) with false. cbn iota.
    destruct b; [discriminate|]. rewrite (IH _ Hr). reflexivity.
Qed.

(** [String.append] is kept folded; this is its second equation. *)
Lemma append_cons x (a b : text) : String x a ++ b = String x (a ++ b).
Proof. reflexivity. Qed.

Lemma append_assoc (a b c : text) : (a ++ b) ++ c = a ++ (b ++ c).
Proof.
  induction a as [|x a IH]; [reflexivity|].
  rewrite !append_cons, IH. reflexivity.
Qed.

Lemma append_inv_head (a b c : text) : a ++ b = a ++ c -> b = c.
Proof.
  induction a as [|x a IH]; [tauto|].
  rewrite !append_cons. intros [= H]. auto.
Qed.

Lemma append_empty_r (a : text) : a ++ "" = a.
Proof.
  induction a as [|x a IH]; [reflexivity|].
  rewrite append_cons, IH. reflexivity.
Qed.

Lemma all_chars_append p (a b : text) :
  all_chars p (a ++ b) = (all_chars p a && all_chars p b)%bool.
Proof.
  induction a as [|x a IH]; [reflexivity|].
  rewrite append_cons. cbn [all_chars]. rewrite IH, andb_assoc. reflexivity.
Qed.

Lemma all_chars_impl (p q : ascii -> bool) s :
  (forall c, p c = true -> q c = true) ->
  all_chars p s = true -> all_chars q s = true.
Proof.
  intros Hpq. induction s as [|x s IH]; [reflexivity|]. cbn [all_chars].
  intros H. apply andb_true_iff in H as [Hx Hs].
  rewrite (Hpq x Hx), (IH Hs). reflexivity.
Qed.

Lemma ends_with_hyphen_append (a b : text) :
  b <> "" -> ends_with_hyphen (a ++ b) = ends_with_hyphen b.
Proof.
  intros Hb. induction a as [|x a IH]; [reflexivity|].
  rewrite append_cons. cbn [ends_with_hyphen]. rewrite IH.
  destruct (a ++ b) eqn:E; [|reflexivity].
  destruct a; [change (b = "") in E; congruence
             | rewrite append_cons in E; discriminate].
Qed.

Lemma ends_with_slug_alnum s :
  all_chars is_slug_alnum s = true -> ends_with_hyphen s = false.
Proof.
  induction s as [|x s IH]; [reflexivity|]. cbn [all_chars ends_with_hyphen].
  intros H. apply andb_true_iff in H as [Hx Hs].
  destruct s; [apply slug_alnum_not_hyphen, Hx | apply IH, Hs].
Qed.

Lemma uint_digits d : all_chars is_digit (NilEmpty.string_of_uint d) = true.
Proof. induction d; cbn [NilEmpty.string_of_uint all_chars]; auto. Qed.

(** A positive [integer] is written with digits only, and at least one. *)
Lemma int4_to_text_positive k :
  (0 < k)%Z ->
  all_chars is_digit (int4_to_text k) = true /\ int4_to_text k <> "".
Proof.
  intros Hk. split.
  - destruct k as [|p|p]; try lia. apply uint_digits.
  - intros Hempty.
    pose proof (NilEmpty.isi (Z.to_int k)) as Hisi.
    unfold int4_to_text in Hempty. rewrite Hempty in Hisi.
    injection Hisi as Hisi. apply (f_equal Z.of_int) in Hisi.
    rewrite DecimalZ.of_to in Hisi. cbn in Hisi. lia.
Qed.

End TextFacts.

(* ===================================================================== *)
(** ** Facts about the slug generator and the trigger *)
(* ===================================================================== *)

Module SlugFacts.

Import Text Sql Slug TextFacts.
Local Open Scope string_scope.

(** *** Texts and candidates *)

Lemma int4_to_text_inj a b : int4_to_text a = int4_to_text b -> a = b.
Proof.
  unfold int4_to_text. intros H.
  apply DecimalZ.to_int_inj.
  assert (Hs : Some (Z.to_int a) = Some (Z.to_int b))
    by (rewrite <- !NilEmpty.isi, H; reflexivity).
  congruence.
Qed.

Lemma candidate_zero base : candidate base 0 = base.
Proof. reflexivity. Qed.

Lemma candidate_pos base c :
  c <> 0%Z -> candidate base c = base ++ "-" ++ int4_to_text c.
Proof. unfold candidate. intros H. destruct (Z.eqb_spec c 0); tauto. Qed.

(** The candidates of one base are pairwise distinct. *)
Lemma candidate_inj base a b : candidate base a = candidate base b -> a = b.
Proof.
  unfold candidate.
  destruct (Z.eqb_spec a 0) as [->|Ha], (Z.eqb_spec b 0) as [->|Hb];
    [reflexivity | | |].
  - intros H. rewrite <- (append_empty_r base) in H at 1.
    apply append_inv_head in H. discriminate.
  - intros H. rewrite <- (append_empty_r base) in H at 2.
    apply append_inv_head in H. discriminate.
  - intros H. apply append_inv_head in H. injection H as H.
    apply int4_to_text_inj, H.
Qed.

(** The text the loop builds at line 58 is the next candidate. *)
Lemma next_candidate base c :
  c <> 0%Z ->
  sql_concat (sql_concat (Some base) (Some "-")) (Some (int4_to_text c))
  = Some (candidate base c).
Proof.
  intros H. unfold sql_concat.
  rewrite append_assoc, (candidate_pos base c H). reflexivity.
Qed.

(** *** The model on sample inputs *)

Example slug_base_sample :
  slug_base "  Hello, World!! -- 42 " = "hello-world-42".
Proof. reflexivity. Qed.

Example slug_base_hyphens : slug_base "--a--b--" = "a-b".
Proof. reflexivity. Qed.

Example slug_base_symbols : slug_base "?!" = "".
Proof. reflexivity. Qed.

Example uuid_text_sample :
  uuid_text 0x0123456789abcdef0123456789abcdef%N
  = "01234567-89ab-cdef-0123-456789abcdef".
Proof. reflexivity. Qed.

Example generate_free :
  generate_unique_slug [card (Some 1%N) (Some "bob") None] 0%N
    (Some "Alice Smith") "business_cards" None
  = Returned (Some "alice-smith").
Proof. reflexivity. Qed.

Example generate_own_slug_kept :
  generate_unique_slug [card (Some 1%N) (Some "alice") None] 0%N
    (Some "alice") "business_cards" (Some 1%N)
  = Returned (Some "alice").
Proof. reflexivity. Qed.

Example generate_third_candidate :
  generate_unique_slug
    [card (Some 1%N) (Some "a") None; card (Some 2%N) (Some "a-2") None;
     card (Some 3%N) (Some "a-1") None] 0%N (Some "A") "business_cards" None
  = Returned (Some "a-3").
Proof. reflexivity. Qed.

Example generate_fallback :
  generate_unique_slug [] 0xdeadbeef000000000000000000000000%N
    (Some "?!") "business_cards" None
  = Returned (Some "card-deadbeef").
Proof. reflexivity. Qed.

Example generate_null_input :
  generate_unique_slug [card (Some 1%N) (Some "a") None] 0%N None
    "business_cards" None
  = Returned None.
Proof. reflexivity. Qed.

Example insert_without_slug :
  set_card_slug [card (Some 1%N) (Some "card") None] 0%N INSERT None
    (card (Some 2%N) None None)
  = Returned (card (Some 2%N) (Some "card-1") None).
Proof. reflexivity. Qed.

Example update_to_taken_slug :
  set_card_slug
    [card (Some 1%N) (Some "alice") None; card (Some 2%N) (Some "bob") None]
    0%N UPDATE (Some (card (Some 2%N) (Some "bob") None))
    (card (Some 2%N) (Some "Alice") None)
  = Returned (card (Some 2%N) (Some "alice-1") None).
Proof. reflexivity. Qed.

(** *** The existence test *)

Lemma slug_conflict_iff excl cand r :
  slug_conflict excl (Some cand) r = true <-> conflicting excl cand r.
Proof.
  unfold slug_conflict, conflicting.
  destruct (slug r) as [s|]; cbn.
  - destruct (String.eqb_spec s cand) as [->|Hne].
    + destruct excl as [u|]; cbn.
      * destruct (user_id r) as [v|]; cbn.
        -- destruct (N.eqb_spec v u) as [->|Hvu]; cbn.
           ++ split; [discriminate|]. intros [_ [w [[= <-] Hw]]]. tauto.
           ++ split; [|reflexivity]. intros _. split; [reflexivity|].
              exists v. tauto.
        -- split; [discriminate|]. intros [_ [w [[=] _]]].
      * tauto.
    + split.
      * destruct excl as [u|]; cbn; [|discriminate].
        destruct (user_id r) as [v|]; cbn; [|discriminate].
        destruct (N.eqb v u); discriminate.
      * intros [[= H] _]. tauto.
  - split.
    + destruct excl as [u|]; cbn; [|discriminate].
      destruct (user_id r) as [v|]; cbn; [|discriminate].
      destruct (N.eqb v u); discriminate.
    + intros [[=] _].
Qed.

Lemma slug_exists_iff rows excl cand :
  slug_exists rows excl (Some cand) = true <->
  exists r, In r rows /\ conflicting excl cand r.
Proof.
  unfold slug_exists. rewrite List.existsb_exists.
  split; intros [r [Hin H]]; exists r; split; try assumption;
    apply slug_conflict_iff; assumption.
Qed.

Lemma slug_exists_free rows excl cand :
  slug_exists rows excl (Some cand) = false <->
  forall r, In r rows -> ~ conflicting excl cand r.
Proof.
  rewrite <- not_true_iff_false, slug_exists_iff. split.
  - intros H r Hin Hc. apply H. exists r. tauto.
  - intros H [r [Hin Hc]]. exact (H r Hin Hc).
Qed.

(** No row conflicts with a NULL slug. *)
Lemma slug_exists_null rows excl : slug_exists rows excl None = false.
Proof.
  unfold slug_exists. induction rows as [|r rows IH]; [reflexivity|].
  cbn [existsb]. rewrite IH, orb_false_r.
  unfold slug_conflict. destruct (slug r); cbn;
    destruct excl, (user_id r); cbn; try destruct (N.eqb _ _); reflexivity.
Qed.

(** *** The loop *)

Lemma int4_add_in_range a b :
  (int4_min <= a + b <= int4_max)%Z -> int4_add a b = Returned (a + b)%Z.
Proof.
  intros [Hlo Hhi]. unfold int4_add.
  apply Z.leb_le in Hlo, Hhi. rewrite Hlo, Hhi. reflexivity.
Qed.

Lemma int4_add_overflow a b :
  (int4_max < a + b)%Z -> int4_add a b = Raised integer_out_of_range.
Proof.
  intros H. unfold int4_add.
  apply Z.leb_gt in H. rewrite H, andb_false_r. reflexivity.
Qed.

Section Probe.

Variable rows : list business_card.
Variable excl : option uuid.
Variable base : text.

(** As many candidates as are taken, as many rows there are at least:
    distinct candidates are held by distinct rows. *)
Lemma taken_prefix_bound (n : nat) :
  (forall j, (j < n)%nat -> taken rows excl base (Z.of_nat j) = true) ->
  (n <= List.length rows)%nat.
Proof.
  intros Htaken.
  pose (held := List.map (fun j => Some (candidate base (Z.of_nat j))) (seq 0 n)).
  assert (Hnodup : List.NoDup held).
  { apply Injective_map_NoDup_in; [|apply List.seq_NoDup].
    intros i j _ _ [= H]. apply candidate_inj in H. lia. }
  assert (Hincl : List.incl held (List.map slug rows)).
  { intros x Hx. apply List.in_map_iff in Hx as [j [<- Hj]].
    apply List.in_seq in Hj.
    assert (Ht : taken rows excl base (Z.of_nat j) = true)
      by (apply Htaken; lia).
    apply slug_exists_iff in Ht as [r [Hin [Hslug _]]].
    rewrite <- Hslug. apply List.in_map, Hin. }
  pose proof (List.NoDup_incl_length Hnodup Hincl) as Hlen.
  unfold held in Hlen.
  rewrite !List.length_map, List.length_seq in Hlen. exact Hlen.
Qed.

(** Started on the candidate of [c], the loop returns the first free
    candidate [k] at or after it, if the counter can reach [k]. *)
Lemma probe_found fuel :
  forall c k,
    (0 <= c <= k)%Z -> (k <= int4_max)%Z ->
    (forall j, (c <= j < k)%Z -> taken rows excl base j = true) ->
    taken rows excl base k = false ->
    (Z.to_nat (k - c) < fuel)%nat ->
    probe rows excl (Some base) fuel c (Some (candidate base c))
    = Returned (Some (candidate base k)).
Proof.
  unfold taken.
  induction fuel as [|fuel IH]; intros c k Hck Hk Hbelow Hfree Hfuel; [lia|].
  cbn [probe]. destruct (Z.eq_dec c k) as [->|Hne].
  - rewrite Hfree. reflexivity.
  - rewrite Hbelow by lia.
    rewrite int4_add_in_range by (unfold int4_min, int4_max in *; lia).
    cbn [mbind outcome_bind]. rewrite next_candidate by lia.
    apply IH; try assumption; try lia.
    intros j Hj. apply Hbelow. lia.
Qed.

(** If every candidate the counter can reach is taken, the increment
    past 2147483647 raises. *)
Lemma probe_overflow fuel :
  forall c,
    (0 <= c <= int4_max)%Z ->
    (forall j, (c <= j <= int4_max)%Z -> taken rows excl base j = true) ->
    (Z.to_nat (int4_max - c) < fuel)%nat ->
    probe rows excl (Some base) fuel c (Some (candidate base c))
    = Raised integer_out_of_range.
Proof.
  unfold taken.
  induction fuel as [|fuel IH]; intros c Hc Htaken Hfuel; [lia|].
  cbn [probe]. rewrite Htaken by lia.
  destruct (Z.eq_dec c int4_max) as [->|Hne].
  - rewrite int4_add_overflow by lia. reflexivity.
  - rewrite int4_add_in_range by (unfold int4_min, int4_max in *; lia).
    cbn [mbind outcome_bind]. rewrite next_candidate by lia.
    apply IH; try lia.
    intros j Hj. apply Htaken. lia.
Qed.

Lemma first_free_below (n : nat) :
  (exists k, (0 <= k < Z.of_nat n)%Z /\ taken rows excl base k = false /\
             forall j, (0 <= j < k)%Z -> taken rows excl base j = true) \/
  (forall j, (0 <= j < Z.of_nat n)%Z -> taken rows excl base j = true).
Proof.
  induction n as [|n [[k [Hk [Hfree Hbelow]]]|Hall]].
  - right. intros j Hj. lia.
  - left. exists k. repeat split; try assumption; lia.
  - destruct (taken rows excl base (Z.of_nat n)) eqn:Hn.
    + right. intros j Hj.
      destruct (Z.eq_dec j (Z.of_nat n)) as [->|Hne]; [exact Hn|].
      apply Hall. lia.
    + left. exists (Z.of_nat n). repeat split; try assumption; try lia.
Qed.

(** Among the first [length rows + 1] candidates one is free. *)
Lemma first_free_exists :
  exists k, (0 <= k <= Z.of_nat (List.length rows))%Z /\
            taken rows excl base k = false /\
            forall j, (0 <= j < k)%Z -> taken rows excl base j = true.
Proof.
  destruct (first_free_below (S (List.length rows)))
    as [[k [Hk [Hfree Hbelow]]]|Hall].
  - exists k. repeat split; try assumption; lia.
  - exfalso.
    assert (H : (S (List.length rows) <= List.length rows)%nat); [|lia].
    apply taken_prefix_bound. intros j Hj. apply Hall. lia.
Qed.

(** What the loop comes to, for every fuel above the number of rows: the
    first free candidate, or the error when the counter cannot reach it. *)
Lemma probe_outcome :
  exists k, (0 <= k <= Z.of_nat (List.length rows))%Z /\
            taken rows excl base k = false /\
            (forall j, (0 <= j < k)%Z -> taken rows excl base j = true) /\
            forall fuel, (List.length rows < fuel)%nat ->
              probe rows excl (Some base) fuel 0 (Some base)
              = if (k <=? int4_max)%Z then Returned (Some (candidate base k))
                else Raised integer_out_of_range.
Proof.
  destruct first_free_exists as [k [Hk [Hfree Hbelow]]].
  exists k. repeat split; try assumption; try lia.
  intros fuel Hfuel. rewrite <- (candidate_zero base) at 2.
  destruct (Z.leb_spec k int4_max) as [Hle|Hgt].
  - apply probe_found; try assumption; lia.
  - apply probe_overflow; try (unfold int4_max in *; lia).
    intros j Hj. apply Hbelow. lia.
Qed.

End Probe.

(** *** The generator *)

Lemma effective_base_normal draw input :
  slug_base input <> "" -> effective_base draw input = slug_base input.
Proof.
  intros H. unfold effective_base.
  destruct (String.eqb_spec (slug_base input) ""); tauto.
Qed.

(** On a text the generator is the loop run on the effective base. *)
Lemma generate_unique_slug_probe rows draw input table_name excl :
  generate_unique_slug rows draw (Some input) table_name excl
  = probe rows excl (Some (effective_base draw input))
      (S (List.length rows)) 0 (Some (effective_base draw input)).
Proof.
  unfold generate_unique_slug, effective_base, slug_base, btrim_hyphen.
  cbn [option_map sql_eq holds].
  destruct (String.eqb _ ""); reflexivity.
Qed.

(** The fuel the generator gives its loop is enough, and more changes
    nothing. *)
Lemma probe_fuel_enough rows draw input table_name excl fuel :
  (List.length rows < fuel)%nat ->
  probe rows excl (Some (effective_base draw input)) fuel 0
    (Some (effective_base draw input))
  = generate_unique_slug rows draw (Some input) table_name excl.
Proof.
  intros Hfuel. rewrite generate_unique_slug_probe.
  destruct (probe_outcome rows excl (effective_base draw input))
    as [k [_ [_ [_ Hrun]]]].
  rewrite (Hrun fuel Hfuel), (Hrun (S (List.length rows))) by lia.
  reflexivity.
Qed.

Lemma generate_outcome rows draw input table_name excl :
  let base := effective_base draw input in
  exists k, (0 <= k <= Z.of_nat (List.length rows))%Z /\
            taken rows excl base k = false /\
            (forall j, (0 <= j < k)%Z -> taken rows excl base j = true) /\
            generate_unique_slug rows draw (Some input) table_name excl
            = if (k <=? int4_max)%Z then Returned (Some (candidate base k))
              else Raised integer_out_of_range.
Proof.
  intros base. rewrite generate_unique_slug_probe. fold base.
  destruct (probe_outcome rows excl base) as [k [Hk [Hfree [Hbelow Hrun]]]].
  exists k. repeat split; try assumption; try lia.
  apply Hrun. lia.
Qed.

(** With every reachable candidate taken the generator raises. *)
Lemma generate_all_taken rows draw input table_name excl :
  (forall j, (0 <= j <= int4_max)%Z ->
             taken rows excl (effective_base draw input) j = true) ->
  generate_unique_slug rows draw (Some input) table_name excl
  = Raised integer_out_of_range.
Proof.
  intros Hall.
  destruct (generate_outcome rows draw input table_name excl)
    as [k [Hk [Hfree [_ ->]]]].
  destruct (Z.leb_spec k int4_max) as [Hle|Hgt]; [|reflexivity].
  rewrite Hall in Hfree by lia. discriminate.
Qed.

(** With the first [k] candidates taken and the next one free, the
    generator returns that one. *)
Lemma generate_first_free_at rows draw input table_name excl k :
  (0 <= k <= int4_max)%Z ->
  (forall j, (0 <= j < k)%Z ->
             taken rows excl (effective_base draw input) j = true) ->
  taken rows excl (effective_base draw input) k = false ->
  generate_unique_slug rows draw (Some input) table_name excl
  = Returned (Some (candidate (effective_base draw input) k)).
Proof.
  intros Hk Hbelow Hfree.
  destruct (generate_outcome rows draw input table_name excl)
    as [k' [Hk' [Hfree' [Hbelow' ->]]]].
  assert (k' = k) as ->.
  { destruct (Z.lt_trichotomy k' k) as [Hlt|[Heq|Hgt]]; [|exact Heq|].
    - rewrite Hbelow in Hfree' by lia. discriminate.
    - rewrite Hbelow' in Hfree by lia. discriminate. }
  destruct (Z.leb_spec k int4_max); [reflexivity|lia].
Qed.

(** In the saturated table every reachable candidate conflicts, unless
    one of its owners is excluded. *)
Lemma saturated_table_taken base first_owner excl j :
  match excl with None => True | Some u => (u < first_owner)%N end ->
  (0 <= j <= int4_max)%Z ->
  taken (saturated_table base first_owner) excl base j = true.
Proof.
  intros Hexcl Hj. apply slug_exists_iff.
  exists (card (Some (first_owner + N.of_nat (Z.to_nat j))%N)
            (Some (candidate base j)) None). split.
  - unfold saturated_table. apply List.in_map_iff.
    exists (Z.to_nat j). split.
    + rewrite Z2Nat.id by lia. reflexivity.
    + apply List.in_seq. unfold int4_max in Hj. lia.
  - split; [reflexivity|].
    destruct excl as [u|]; [|exact I].
    eexists. split; [reflexivity|]. lia.
Qed.

Lemma generate_saturated base first_owner draw input table_name excl :
  effective_base draw input = base ->
  match excl with None => True | Some u => (u < first_owner)%N end ->
  generate_unique_slug (saturated_table base first_owner) draw (Some input)
    table_name excl
  = Raised integer_out_of_range.
Proof.
  intros Hbase Hexcl. apply generate_all_taken. rewrite Hbase.
  intros j Hj. apply saturated_table_taken; assumption.
Qed.

(** *** The generator: first free candidate *)

(** C1, as amended.  For a seed text whose base slug is not empty and a
    table of fewer than 2^31 rows, [generate_unique_slug] returns the
    first candidate of base, base-1, base-2, ... with which no row
    conflicts: no row conflicts with the one returned, and each earlier
    one has a conflicting row. *)
Theorem generate_returns_first_free rows draw input table_name excl :
  slug_base input <> "" ->
  (Z.of_nat (List.length rows) <= int4_max)%Z ->
  exists k, (0 <= k)%Z /\
    generate_unique_slug rows draw (Some input) table_name excl
    = Returned (Some (candidate (slug_base input) k)) /\
    (forall r, In r rows ->
               ~ conflicting excl (candidate (slug_base input) k) r) /\
    (forall j, (0 <= j < k)%Z ->
               exists r, In r rows /\
                         conflicting excl (candidate (slug_base input) j) r).
Proof.
  intros Hbase Hrows.
  destruct (generate_outcome rows draw input table_name excl)
    as [k [Hk [Hfree [Hbelow Hrun]]]].
  rewrite (effective_base_normal draw input Hbase) in *.
  exists k. split; [lia|]. split; [|split].
  - rewrite Hrun. destruct (Z.leb_spec k int4_max); [reflexivity|lia].
  - apply slug_exists_free, Hfree.
  - intros j Hj. apply slug_exists_iff, Hbelow, Hj.
Qed.

Lemma generate_returns_first_free_witness :
  let rows := [card (Some 1%N) (Some "card") None;
               card (Some 2%N) (Some "card-1") None] in
  exists k, (0 <= k)%Z /\
    generate_unique_slug rows 0%N (Some "Card") "business_cards" None
    = Returned (Some (candidate (slug_base "Card") k)) /\
    (forall r, In r rows ->
               ~ conflicting None (candidate (slug_base "Card") k) r) /\
    (forall j, (0 <= j < k)%Z ->
               exists r, In r rows /\
                         conflicting None (candidate (slug_base "Card") j) r).
Proof.
  apply generate_returns_first_free.
  - vm_compute. discriminate.
  - vm_compute. discriminate.
Defined.

(** C1 as stated fails on a table that holds every candidate the counter
    can reach: the increment past 2147483647 raises, nothing is
    returned. *)
Lemma generate_saturated_table_raises :
  slug_base "a" <> "" /\
  generate_unique_slug (saturated_table "a" 1%N) 0%N (Some "a")
    "business_cards" None
  = Raised integer_out_of_range.
Proof.
  split; [vm_compute; discriminate|].
  apply generate_saturated; [reflexivity | exact I].
Qed.

(** C2, as amended.  With a row whose slug is "card-1" in the table, no
    owner excluded and a seed whose base slug is "card-1", the generator
    returns "card-1-1" (the suffix goes after the whole base), provided
    no row holds that slug. *)
Theorem generate_card_1_collision rows draw input table_name :
  slug_base input = "card-1" ->
  (exists r, In r rows /\ slug r = Some "card-1") ->
  (forall r, In r rows -> slug r <> Some "card-1-1") ->
  generate_unique_slug rows draw (Some input) table_name None
  = Returned (Some "card-1-1").
Proof.
  intros Hbase [r [Hin Hr]] Hfree.
  assert (Heff : effective_base draw input = "card-1")
    by (rewrite effective_base_normal; rewrite Hbase; [reflexivity|discriminate]).
  change "card-1-1" with (candidate "card-1" 1). rewrite <- Heff.
  apply generate_first_free_at; rewrite ?Heff.
  - unfold int4_max. lia.
  - intros j Hj. assert (j = 0%Z) as -> by lia.
    apply slug_exists_iff. exists r. split; [exact Hin|].
    split; [exact Hr | exact I].
  - apply slug_exists_free. intros r' Hin' [Hslug _].
    exact (Hfree r' Hin' Hslug).
Qed.

Lemma generate_card_1_collision_witness :
  generate_unique_slug [card (Some 1%N) (Some "card-1") None] 0%N
    (Some "Card 1") "business_cards" None
  = Returned (Some "card-1-1").
Proof.
  apply generate_card_1_collision.
  - reflexivity.
  - eexists. split; [left; reflexivity | reflexivity].
  - intros r [<-|[]]. discriminate.
Defined.

(** C2 as stated fails: on the table of the one row "card-1" the
    generator returns "card-1-1", not "card-2". *)
Lemma generate_card_1_not_card_2 :
  slug_base "card-1" = "card-1" /\
  generate_unique_slug [card (Some 1%N) (Some "card-1") None] 0%N
    (Some "card-1") "business_cards" None
  <> Returned (Some "card-2").
Proof. split; [reflexivity | vm_compute; discriminate]. Qed.

(** C5.  With the slug "alice" held by a row of user U, the generator
    called for another user V on the seed "alice", V excluded, finds U's
    row in conflict and returns "alice-1" (no row of a user other than V
    holding that one). *)
Theorem generate_alice_for_other_user rows draw table_name (U V : uuid) :
  U <> V ->
  (exists r, In r rows /\ slug r = Some "alice" /\ user_id r = Some U) ->
  (forall r, In r rows -> ~ conflicting (Some V) "alice-1" r) ->
  slug_exists rows (Some V) (Some "alice") = true /\
  generate_unique_slug rows draw (Some "alice") table_name (Some V)
  = Returned (Some "alice-1").
Proof.
  intros HUV [r [Hin [Hr Hu]]] Hfree.
  assert (Hconflict : slug_exists rows (Some V) (Some "alice") = true).
  { apply slug_exists_iff. exists r. split; [exact Hin|].
    split; [exact Hr|]. exists U. tauto. }
  split; [exact Hconflict|].
  assert (Heff : effective_base draw "alice" = "alice") by reflexivity.
  change "alice-1" with (candidate "alice" 1). rewrite <- Heff.
  apply generate_first_free_at; rewrite ?Heff.
  - unfold int4_max. lia.
  - intros j Hj. assert (j = 0%Z) as -> by lia. exact Hconflict.
  - apply slug_exists_free. exact Hfree.
Qed.

Lemma generate_alice_for_other_user_witness :
  let rows := [card (Some 1%N) (Some "alice") (Some "Alice")] in
  slug_exists rows (Some 2%N) (Some "alice") = true /\
  generate_unique_slug rows 0%N (Some "alice") "business_cards" (Some 2%N)
  = Returned (Some "alice-1").
Proof.
  apply (generate_alice_for_other_user _ _ _ 1%N 2%N).
  - discriminate.
  - eexists. split; [left; reflexivity|]. split; reflexivity.
  - intros r [<-|[]] [Hslug _]. discriminate.
Defined.

(** C7, as amended.  On every table the loop ends within one test more
    than there are rows, whatever fuel above that it is given, and the
    generator's call is never cut short; with fewer than 2^31 rows it
    returns a candidate with which no row conflicts. *)
Theorem probe_terminates rows draw input table_name excl :
  ((forall fuel, (List.length rows < fuel)%nat ->
      probe rows excl (Some (effective_base draw input)) fuel 0
        (Some (effective_base draw input))
      = generate_unique_slug rows draw (Some input) table_name excl) /\
   generate_unique_slug rows draw (Some input) table_name excl <> OutOfFuel) /\
  ((Z.of_nat (List.length rows) <= int4_max)%Z ->
   exists k, (0 <= k <= Z.of_nat (List.length rows))%Z /\
     generate_unique_slug rows draw (Some input) table_name excl
     = Returned (Some (candidate (effective_base draw input) k)) /\
     forall r, In r rows ->
       ~ conflicting excl (candidate (effective_base draw input) k) r).
Proof.
  destruct (generate_outcome rows draw input table_name excl)
    as [k [Hk [Hfree [_ Hrun]]]].
  split; [split|].
  - intros fuel Hfuel. apply probe_fuel_enough, Hfuel.
  - rewrite Hrun. destruct (k <=? int4_max)%Z; discriminate.
  - intros Hrows. exists k. split; [exact Hk|]. split.
    + rewrite Hrun. destruct (Z.leb_spec k int4_max); [reflexivity|lia].
    + apply slug_exists_free, Hfree.
Qed.

Lemma probe_terminates_witness :
  let rows := [card (Some 1%N) (Some "x") None;
               card (Some 3%N) (Some "x-1") None] in
  exists k, (0 <= k <= Z.of_nat (List.length rows))%Z /\
    generate_unique_slug rows 0%N (Some "X") "business_cards" (Some 2%N)
    = Returned (Some (candidate (effective_base 0%N "X") k)) /\
    forall r, In r rows ->
      ~ conflicting (Some 2%N) (candidate (effective_base 0%N "X") k) r.
Proof.
  apply (proj2 (probe_terminates _ 0%N "X" "business_cards" (Some 2%N))).
  vm_compute. discriminate.
Defined.

(** C7 as stated fails: a table in which every candidate the counter can
    reach is held by another user is finite, and on it no value is
    returned. *)
Lemma probe_saturated_table_raises :
  generate_unique_slug (saturated_table "x" 2%N) 0%N (Some "X")
    "business_cards" (Some 1%N)
  = Raised integer_out_of_range.
Proof. apply generate_saturated; [reflexivity | reflexivity]. Qed.

(** *** Normalization *)

Lemma slug_base_separated input :
  hyphen_separated true (slug_base input) = true.
Proof.
  unfold slug_base, btrim_hyphen, regexp_replace_non_alnum.
  apply rtrim_separated. eapply ltrim_separated.
  apply lower_replace_runs_separated.
Qed.

(** C8.  Normalization, which is lines 40-41 ([regexp_replace], [lower],
    [trim]), is idempotent: applied to a base slug it gives that base
    slug back. *)
Theorem slug_base_idempotent input :
  slug_base (slug_base input) = slug_base input.
Proof.
  pose proof (slug_base_separated input) as H.
  unfold slug_base at 1. unfold regexp_replace_non_alnum, btrim_hyphen.
  rewrite (replace_runs_separated_id _ false)
    by (eapply hyphen_separated_weaken, H).
  rewrite (lower_separated_id _ true H), (ltrim_separated_id _ H).
  unfold slug_base, btrim_hyphen. apply rtrim_idempotent.
Qed.

(** *** The fallback base *)

Lemma replace_runs_non_alnum s :
  all_chars (fun c => negb (is_alnum c)) s = true ->
  replace_runs true s = "" /\
  (replace_runs false s = "" \/ replace_runs false s = String hyphen "").
Proof.
  induction s as [|c r IH]; [intros _; split; [|left]; reflexivity|].
  cbn [all_chars replace_runs]. intros H.
  apply andb_true_iff in H as [Hc Hr]. apply negb_true_iff in Hc.
  rewrite Hc. destruct (IH Hr) as [-> _]. split; [reflexivity|].
  right. reflexivity.
Qed.

Lemma slug_base_non_alnum input :
  all_chars (fun c => negb (is_alnum c)) input = true -> slug_base input = "".
Proof.
  intros H. unfold slug_base, regexp_replace_non_alnum.
  destruct (replace_runs_non_alnum input H) as [_ [->| ->]]; reflexivity.
Qed.

Lemma hex_digit_slug_alnum v : is_slug_alnum (hex_digit v) = true.
Proof.
  unfold hex_digit. generalize (N.to_nat (v mod 16)). intros n.
  do 17 (destruct n as [|n]; [reflexivity|]). reflexivity.
Qed.

Lemma hex_digits_slug_alnum len v :
  all_chars is_slug_alnum (hex_digits len v) = true.
Proof.
  induction len as [|len IH]; [reflexivity|].
  cbn [hex_digits all_chars]. rewrite hex_digit_slug_alnum, IH. reflexivity.
Qed.

(** [substr(gen_random_uuid()::text, 1, 8)] is the first group of the
    uuid's digits. *)
Lemma fallback_token draw :
  substr_prefix (uuid_text draw) 8 = hex_digits 8 (draw / 2 ^ 96)%N.
Proof. reflexivity. Qed.

Lemma effective_base_fallback draw input :
  slug_base input = "" ->
  effective_base draw input = "card-" ++ hex_digits 8 (draw / 2 ^ 96)%N.
Proof.
  intros H. unfold effective_base. rewrite H, fallback_token. reflexivity.
Qed.

Lemma fallback_well_formed v :
  well_formed_slug ("card-" ++ hex_digits 8 v) = true.
Proof.
  unfold well_formed_slug, matches_slug_class.
  rewrite all_chars_append, ends_with_hyphen_append by discriminate.
  rewrite (all_chars_impl _ _ _ slug_alnum_is_slug_char
             (hex_digits_slug_alnum 8 v)).
  rewrite (ends_with_slug_alnum _ (hex_digits_slug_alnum 8 v)).
  reflexivity.
Qed.

(** Appending a counter keeps a slug well formed. *)
Lemma candidate_well_formed base k :
  well_formed_slug base = true -> (0 <= k)%Z ->
  well_formed_slug (candidate base k) = true.
Proof.
  intros Hbase Hk. unfold candidate.
  destruct (Z.eqb_spec k 0) as [->|Hne]; [exact Hbase|].
  destruct (int4_to_text_positive k) as [Hdigits Hnonempty]; [lia|].
  unfold well_formed_slug, matches_slug_class in *.
  apply andb_true_iff in Hbase as [Hbase Hend].
  apply andb_true_iff in Hbase as [Hbase Hstart].
  apply andb_true_iff in Hbase as [Hne' Hchars].
  destruct base as [|c base]; [discriminate|].
  rewrite append_cons.
  cbn [String.eqb negb starts_with_hyphen andb] in *. rewrite Hstart.
  rewrite <- append_cons.
  rewrite all_chars_append, Hchars, all_chars_append.
  rewrite ends_with_hyphen_append by discriminate.
  rewrite ends_with_hyphen_append by exact Hnonempty.
  rewrite (all_chars_impl _ _ _
             (fun c H => slug_alnum_is_slug_char c (digit_is_slug_alnum c H))
             Hdigits).
  rewrite (ends_with_slug_alnum _
             (all_chars_impl _ _ _ digit_is_slug_alnum Hdigits)).
  reflexivity.
Qed.

(** C3, as amended.  For an input text without any alphanumeric
    character and a table of fewer than 2^31 rows, the generator returns
    a slug built on the fallback base, "card-" and the first eight
    digits of the uuid drawn: it is not empty, matches [[a-z0-9-]+] and
    neither starts nor ends with a hyphen. *)
Theorem fallback_slug_well_formed rows draw input table_name excl :
  all_chars (fun c => negb (is_alnum c)) input = true ->
  (Z.of_nat (List.length rows) <= int4_max)%Z ->
  exists s k,
    generate_unique_slug rows draw (Some input) table_name excl
    = Returned (Some s) /\
    (0 <= k)%Z /\
    s = candidate ("card-" ++ hex_digits 8 (draw / 2 ^ 96)%N) k /\
    s <> "" /\
    matches_slug_class s = true /\
    starts_with_hyphen s = false /\
    ends_with_hyphen s = false.
Proof.
  intros Hinput Hrows.
  destruct (generate_outcome rows draw input table_name excl)
    as [k [Hk [_ [_ Hrun]]]].
  rewrite (effective_base_fallback draw input
             (slug_base_non_alnum input Hinput)) in Hrun.
  exists (candidate ("card-" ++ hex_digits 8 (draw / 2 ^ 96)%N) k), k.
  pose proof (candidate_well_formed _ k
                (fallback_well_formed (draw / 2 ^ 96)%N) (proj1 Hk)) as Hwf.
  unfold well_formed_slug in Hwf.
  apply andb_true_iff in Hwf as [Hwf Hend].
  apply andb_true_iff in Hwf as [Hclass Hstart].
  apply negb_true_iff in Hend, Hstart.
  repeat split; try assumption; try lia.
  - rewrite Hrun. destruct (Z.leb_spec k int4_max); [reflexivity|lia].
  - intros Hempty. rewrite Hempty in Hclass. discriminate.
Qed.

Lemma fallback_slug_well_formed_witness :
  exists s k,
    generate_unique_slug [card (Some 1%N) (Some "card-00000000") None]
      0%N (Some "?!") "business_cards" None
    = Returned (Some s) /\
    (0 <= k)%Z /\
    s = candidate ("card-" ++ hex_digits 8 (0 / 2 ^ 96)%N) k /\
    s <> "" /\
    matches_slug_class s = true /\
    starts_with_hyphen s = false /\
    ends_with_hyphen s = false.
Proof.
  apply fallback_slug_well_formed.
  - reflexivity.
  - vm_compute. discriminate.
Defined.

(** C3 as stated fails on a table that holds every candidate of the
    fallback base the counter can reach: the generator raises. *)
Lemma fallback_saturated_table_raises :
  all_chars (fun c => negb (is_alnum c)) "!!!" = true /\
  generate_unique_slug (saturated_table "card-00000000" 1%N) 0%N
    (Some "!!!") "business_cards" None
  = Raised integer_out_of_range.
Proof.
  split; [reflexivity|].
  apply generate_saturated; [reflexivity | exact I].
Qed.

(** *** The trigger *)

(** An UPDATE that supplies the stored slug again, a text that is not
    empty, passes the row on as it is, whatever the table holds. *)
Lemma set_card_slug_same_slug rows draw OLD NEW s :
  slug OLD = Some s -> slug NEW = Some s -> s <> "" ->
  set_card_slug rows draw UPDATE (Some OLD) NEW = Returned NEW.
Proof.
  intros Hold Hnew Hs. unfold set_card_slug.
  cbn [mbind option_bind]. rewrite Hold, Hnew.
  cbn [is_null sql_eq sql_neq sql_or holds].
  destruct (String.eqb_spec s "") as [?|_]; [tauto|].
  rewrite String.eqb_refl. reflexivity.
Qed.

(** Whatever the trigger returns is [NEW] with another slug at most. *)
Lemma set_card_slug_frame rows draw op OLD NEW r :
  set_card_slug rows draw op OLD NEW = Returned r ->
  r = with_slug NEW (slug r).
Proof.
  assert (Hnew : NEW = with_slug NEW (slug NEW)) by (destruct NEW; reflexivity).
  assert (Hgen : forall input,
    (s ← generate_unique_slug rows draw input "business_cards" (user_id NEW);
     mret (with_slug NEW s)) = Returned r -> r = with_slug NEW (slug r)).
  { intros input.
    destruct (generate_unique_slug rows draw input "business_cards"
                (user_id NEW)); cbn; [|discriminate..].
    intros [= <-]. reflexivity. }
  unfold set_card_slug.
  destruct (holds (sql_or _ _)); [apply Hgen|].
  destruct op; [apply Hgen|].
  destruct (holds (sql_neq _ _ _)); [apply Hgen|].
  cbn. intros [= <-]. exact Hnew.
Qed.

(** C4, as amended.  On an UPDATE whose new slug is not empty and equals
    the stored one, the trigger leaves the row, and so its slug, as
    supplied: the generator is not called, nothing is appended, and the
    rows of the table play no part. *)
Theorem update_same_slug_untouched rows draw OLD NEW s :
  slug OLD = Some s -> slug NEW = Some s -> s <> "" ->
  set_card_slug rows draw UPDATE (Some OLD) NEW = Returned NEW /\
  (forall r, set_card_slug rows draw UPDATE (Some OLD) NEW = Returned r ->
             slug r = Some s).
Proof.
  intros Hold Hnew Hs.
  pose proof (set_card_slug_same_slug rows draw OLD NEW s Hold Hnew Hs) as H.
  split; [exact H|]. intros r Hr. rewrite H in Hr.
  injection Hr as <-. exact Hnew.
Qed.

Lemma update_same_slug_untouched_witness :
  let row := card (Some 1%N) (Some "alice") (Some "Alice") in
  set_card_slug [row] 0%N UPDATE (Some row) row = Returned row /\
  (forall r, set_card_slug [row] 0%N UPDATE (Some row) row = Returned r ->
             slug r = Some "alice").
Proof.
  apply (update_same_slug_untouched _ _ _ _ "alice").
  - reflexivity.
  - reflexivity.
  - discriminate.
Defined.

(** C4 as stated fails when the slug supplied again is the empty text:
    the first branch of the trigger computes a slug from the title. *)
Lemma update_same_empty_slug_recomputed :
  let row := card (Some 7%N) (Some "") (Some "Bob") in
  slug row = slug row /\
  set_card_slug [] 0%N UPDATE (Some row) row
  = Returned (card (Some 7%N) (Some "bob") (Some "Bob")).
Proof. split; reflexivity. Qed.

(** C6, as amended.  The trigger changes no column but the slug, on
    INSERT and on UPDATE alike; and an UPDATE that leaves a slug that is
    not empty as it was stored keeps it, even with rows of other users
    holding the same slug. *)
Theorem trigger_touches_slug_only rows draw NEW :
  (forall op OLD r,
     set_card_slug rows draw op OLD NEW = Returned r ->
     user_id r = user_id NEW /\ title r = title NEW /\
     other_columns r = other_columns NEW) /\
  (forall OLD s,
     slug OLD = Some s -> slug NEW = Some s -> s <> "" ->
     exists r, set_card_slug rows draw UPDATE (Some OLD) NEW = Returned r /\
               slug r = Some s).
Proof.
  split.
  - intros op OLD r Hr. apply set_card_slug_frame in Hr. rewrite Hr.
    repeat split.
  - intros OLD s Hold Hnew Hs. exists NEW. split; [|exact Hnew].
    apply (set_card_slug_same_slug rows draw OLD NEW s); assumption.
Qed.

Lemma trigger_touches_slug_only_witness :
  let old := {| user_id := Some 1%N; slug := Some "alice";
                title := Some "Alice";
                other_columns := [("phone", Some "555-0100")] |} in
  let new := {| user_id := Some 1%N; slug := Some "alice";
                title := Some "Alice";
                other_columns := [("phone", Some "555-0199")] |} in
  let rows := [old; card (Some 2%N) (Some "alice") None] in
  exists r, set_card_slug rows 0%N UPDATE (Some old) new = Returned r /\
            slug r = Some "alice".
Proof.
  apply (proj2 (trigger_touches_slug_only _ _ _) _ "alice").
  - reflexivity.
  - reflexivity.
  - discriminate.
Defined.

(** C6 as stated fails when the slug left alone is NULL: the trigger
    computes one from the title although only the phone number changed. *)
Lemma unrelated_update_null_slug_recomputed :
  let old := {| user_id := Some 7%N; slug := None; title := Some "Bob";
                other_columns := [("phone", Some "555-0100")] |} in
  let new := {| user_id := Some 7%N; slug := None; title := Some "Bob";
                other_columns := [("phone", Some "555-0199")] |} in
  slug new = slug old /\
  set_card_slug [] 0%N UPDATE (Some old) new
  = Returned (with_slug new (Some "bob")).
Proof. split; reflexivity. Qed.

End SlugFacts.

(* ===================================================================== *)
(** ** Facts about the public card page *)
(* ===================================================================== *)

Module PublicCardFacts.

Import PublicCard.
Local Open Scope string_scope.

Lemma pg_eq_str x s : pg_eq x (JStr s) = true <-> x = JStr s.
Proof.
  destruct x; cbn; try (split; [discriminate|congruence]).
  rewrite String.eqb_eq. split; congruence.
Qed.

Lemma pg_eq_bool x b : pg_eq x (JBool b) = true <-> x = JBool b.
Proof.
  destruct x; cbn; try (split; [discriminate|congruence]).
  rewrite Bool.eqb_true_iff. split; congruence.
Qed.

Lemma in_eq_ column v rows r :
  In r (eq_ column v rows) <-> In r rows /\ pg_eq (get r column) v = true.
Proof. unfold eq_. apply List.filter_In. Qed.

(** The rows the first query is left with are the published rows of
    that slug. *)
Lemma in_published_matches slug db r :
  In r (published_matches slug db) <->
  In r (business_cards db) /\
  get r "slug" = JStr slug /\ get r "is_published" = JBool true.
Proof.
  unfold published_matches.
  rewrite !in_eq_, pg_eq_str, pg_eq_bool. tauto.
Qed.

Lemma no_published_match slug db :
  (forall r, In r (business_cards db) ->
             ~ (get r "slug" = JStr slug /\ get r "is_published" = JBool true)) ->
  published_matches slug db = [].
Proof.
  intros Hnone. destruct (published_matches slug db) as [|r l] eqn:E;
    [reflexivity|].
  assert (Hin : In r (published_matches slug db)) by (rewrite E; left; reflexivity).
  apply in_published_matches in Hin as [Hin Hr].
  destruct (Hnone r Hin Hr).
Qed.

(** [.select('id')] keeps the id and nothing else. *)
Lemma select_id_get_id (r : jsobj) : get (select (only ["id"]) r) "id" = get r "id".
Proof.
  unfold get. cbn [select foldr].
  destruct (r !! "id") as [v|] eqn:E.
  - rewrite lookup_insert_eq. reflexivity.
  - rewrite lookup_empty. reflexivity.
Qed.

Lemma select_id_no_view_count (r : jsobj) :
  select (only ["id"]) r !! "view_count" = None.
Proof.
  cbn [select foldr]. destruct (r !! "id") as [v|].
  - rewrite lookup_insert_ne by discriminate. apply lookup_empty.
  - apply lookup_empty.
Qed.

Lemma published_card_none c slug db :
  published_matches slug db = [] ->
  published_card c slug db = {| data := None; error := Some "PGRST116" |}.
Proof. intros H. unfold published_card. rewrite H. reflexivity. Qed.

Lemma published_card_one c slug db row :
  published_matches slug db = [row] ->
  published_card c slug db = {| data := Some (select c row); error := None |}.
Proof. intros H. unfold published_card. rewrite H. reflexivity. Qed.

(** A row that has the slug and is published, in a table none of whose
    other rows is such, is what the first query is left with. *)
Lemma published_matches_only slug db before row after :
  business_cards db = (before ++ row :: after)%list ->
  get row "slug" = JStr slug -> get row "is_published" = JBool true ->
  (forall r, In r (before ++ after)%list ->
             ~ (get r "slug" = JStr slug /\ get r "is_published" = JBool true)) ->
  published_matches slug db = [row].
Proof.
  intros Hdb Hslug Hpub Hothers.
  assert (Hnone : forall l,
    (forall r, In r l -> In r (before ++ after)%list) ->
    eq_ "is_published" (JBool true) (eq_ "slug" (JStr slug) l) = []).
  { intros l Hl.
    destruct (eq_ "is_published" (JBool true) (eq_ "slug" (JStr slug) l))
      as [|r l'] eqn:E; [reflexivity|].
    assert (Hin : In r (eq_ "is_published" (JBool true)
                          (eq_ "slug" (JStr slug) l)))
      by (rewrite E; left; reflexivity).
    rewrite !in_eq_, pg_eq_str, pg_eq_bool in Hin.
    destruct Hin as [[Hin Hs] Hp]. destruct (Hothers r (Hl r Hin)). tauto. }
  unfold published_matches, eq_. rewrite Hdb.
  rewrite List.filter_app. cbn [List.filter].
  rewrite (proj2 (pg_eq_str (get row "slug") slug) Hslug).
  rewrite List.filter_app. cbn [List.filter].
  rewrite (proj2 (pg_eq_bool (get row "is_published") true) Hpub).
  fold (eq_ "slug" (JStr slug) before) (eq_ "slug" (JStr slug) after).
  fold (eq_ "is_published" (JBool true) (eq_ "slug" (JStr slug) before))
       (eq_ "is_published" (JBool true) (eq_ "slug" (JStr slug) after)).
  rewrite (Hnone before) by (intros r Hr; apply List.in_or_app; tauto).
  rewrite (Hnone after) by (intros r Hr; apply List.in_or_app; tauto).
  reflexivity.
Qed.

Section Component.

Variable order : string -> bool -> list jsobj -> list jsobj.

(** C9.  For a slug requested (a route parameter that is present),
    [loadCardData] resolves the card among the published rows only: with
    no published row of that slug it ends on the error "Card not found
    or not published" and sets no card data; a row of the table that
    has the slug and is published, the only such row, is what it sets
    as the card; and a card it sets is always a published row of that
    slug. *)
Theorem loadCardData_reads_published_only cardId db st :
  missing (Some cardId) = false ->
  ((forall r, In r (business_cards db) ->
              ~ (get r "slug" = JStr cardId /\
                 get r "is_published" = JBool true)) ->
   loadCardData order (Some cardId) db st
   = {| cardData := cardData st; loading := false;
        error_message := Some "Card not found or not published" |}) /\
  (forall before row after,
     business_cards db = (before ++ row :: after)%list ->
     get row "slug" = JStr cardId ->
     get row "is_published" = JBool true ->
     (forall r, In r (before ++ after)%list ->
                ~ (get r "slug" = JStr cardId /\
                   get r "is_published" = JBool true)) ->
     exists cd, card cd = row /\
       loadCardData order (Some cardId) db st
       = {| cardData := Some cd; loading := false;
            error_message := error_message st |}) /\
  (forall cd,
     cardData (loadCardData order (Some cardId) db initial_state) = Some cd ->
     In (card cd) (business_cards db) /\ get (card cd) "slug" = JStr cardId /\
     get (card cd) "is_published" = JBool true).
Proof.
  intros Hpresent. split; [|split].
  - intros Hnone. unfold loadCardData. rewrite Hpresent.
    rewrite (published_card_none _ _ _ (no_published_match _ _ Hnone)).
    reflexivity.
  - intros before row after Hdb Hslug Hpub Hothers.
    pose proof (published_matches_only cardId db before row after
                  Hdb Hslug Hpub Hothers) as Hrow.
    unfold loadCardData. rewrite Hpresent.
    rewrite (published_card_one _ _ _ _ Hrow). cbn.
    eexists. split; [|reflexivity]. reflexivity.
  - intros cd. unfold loadCardData. rewrite Hpresent.
    destruct (published_matches cardId db) as [|row [|row' l]] eqn:E.
    + rewrite (published_card_none _ _ _ E). cbn. discriminate.
    + rewrite (published_card_one _ _ _ _ E). cbn. intros [= <-]. cbn.
      apply in_published_matches. rewrite E. left. reflexivity.
    + unfold published_card. rewrite E. cbn. discriminate.
Qed.

End Component.

Lemma loadCardData_reads_published_only_witness :
  let draft := object [("id", JStr "c1"); ("slug", JStr "alice");
                       ("is_published", JBool false)] in
  let row := object [("id", JStr "c2"); ("slug", JStr "bob");
                     ("is_published", JBool true)] in
  let db := {| business_cards := [draft; row];
               social_links := []; media_items := []; review_links := [];
               card_views := [] |} in
  loadCardData (fun _ _ l => l) (Some "alice") db initial_state
  = {| cardData := None; loading := false;
       error_message := Some "Card not found or not published" |} /\
  exists cd, card cd = row /\
    loadCardData (fun _ _ l => l) (Some "bob") db initial_state
    = {| cardData := Some cd; loading := false; error_message := None |}.
Proof.
  intros draft row db. split.
  - apply (loadCardData_reads_published_only (fun _ _ l => l) "alice").
    + reflexivity.
    + intros r [<-|[<-|[]]] [Hslug Hpub];
        vm_compute in Hslug, Hpub; discriminate.
  - refine (proj1 (proj2 (loadCardData_reads_published_only
                            (fun _ _ l => l) "bob" db initial_state eq_refl))
              [draft] row [] eq_refl _ _ _).
    + vm_compute. reflexivity.
    + vm_compute. reflexivity.
    + intros r [<-|[]] [Hslug _]. vm_compute in Hslug. discriminate.
Defined.

Example trackCardView_sample :
  let row := object [("id", JStr "c1"); ("slug", JStr "alice");
                     ("is_published", JBool true); ("view_count", JNum 41)] in
  let db := {| business_cards := [row];
               social_links := []; media_items := []; review_links := [];
               card_views := [] |} in
  let db' := trackCardView (Some "alice") "Mozilla/5.0 (iPhone)" "" db in
  List.map (fun r => (get r "id", get r "slug", get r "view_count"))
    (business_cards db')
  = [(JStr "c1", JStr "alice", JNum 1)] /\
  List.map (fun r => (get r "card_id", get r "visitor_ip", get r "referrer",
                      get r "device_type"))
    (card_views db')
  = [(JStr "c1", JNull, JNull, JStr "mobile")].
Proof. split; vm_compute; reflexivity. Qed.

Example loadCardData_sample :
  let row := object [("id", JStr "c1"); ("slug", JStr "alice");
                     ("is_published", JBool true)] in
  let link := object [("card_id", JStr "c1"); ("is_active", JBool true)] in
  let db := {| business_cards := [row];
               social_links := [link]; media_items := []; review_links := [];
               card_views := [] |} in
  loadCardData (fun _ _ l => l) (Some "alice") db initial_state
  = {| cardData := Some {| card := row; socialLinks := [link];
                           mediaItems := []; reviews := [] |};
       loading := false; error_message := None |}.
Proof. vm_compute. reflexivity. Qed.

Lemma object_view_count v (r : jsobj) :
  v <> JUndefined -> object [("view_count", v)] ∪ r = <["view_count" := v]> r.
Proof.
  intros Hv. unfold object. cbn [foldr fst snd].
  destruct v; try congruence;
    rewrite insert_empty; symmetry; apply insert_union_singleton_l.
Qed.

(** C10.  When [trackCardView] finds the published card of the slug, the
    row it has read holds the id alone, [(card.view_count || 0) + 1] is 1,
    and 1 is what is written to [view_count] in the rows of that id,
    whatever count was stored. *)
Theorem trackCardView_writes_one cardId userAgent referrer db row :
  missing (Some cardId) = false ->
  published_matches cardId db = [row] ->
  get (select (only ["id"]) row) "view_count" = JUndefined /\
  next_view_count (select (only ["id"]) row) = JNum 1 /\
  business_cards (trackCardView (Some cardId) userAgent referrer db)
  = List.map (fun r => if pg_eq (get r "id") (get row "id")
                       then <["view_count" := JNum 1]> r else r)
      (business_cards db).
Proof.
  intros Hpresent Hrow.
  assert (Hundef : get (select (only ["id"]) row) "view_count" = JUndefined)
    by (unfold get; rewrite select_id_no_view_count; reflexivity).
  assert (Hone : next_view_count (select (only ["id"]) row) = JNum 1)
    by (unfold next_view_count; rewrite Hundef; reflexivity).
  split; [exact Hundef|]. split; [exact Hone|].
  unfold trackCardView. rewrite Hpresent.
  rewrite (published_card_one _ _ _ _ Hrow). cbn [data business_cards].
  rewrite Hone, select_id_get_id. unfold update_by_id.
  apply List.map_ext. intros r.
  destruct (pg_eq (get r "id") (get row "id")); [|reflexivity].
  apply object_view_count. discriminate.
Qed.

Lemma trackCardView_writes_one_witness :
  let row := object [("id", JStr "c1"); ("slug", JStr "alice");
                     ("is_published", JBool true); ("view_count", JNum 41)] in
  let db := {| business_cards := [row];
               social_links := []; media_items := []; review_links := [];
               card_views := [] |} in
  get (select (only ["id"]) row) "view_count" = JUndefined /\
  next_view_count (select (only ["id"]) row) = JNum 1 /\
  business_cards (trackCardView (Some "alice") "Mozilla/5.0" "" db)
  = List.map (fun r => if pg_eq (get r "id") (get row "id")
                       then <["view_count" := JNum 1]> r else r)
      (business_cards db).
Proof.
  apply trackCardView_writes_one.
  - reflexivity.
  - vm_compute. reflexivity.
Defined.

End PublicCardFacts.

(* ===================================================================== *)
(** ** More about the generator and the trigger *)
(* ===================================================================== *)

Module SlugProperties.

Import Text Sql Slug TextFacts SlugFacts.
Local Open Scope string_scope.

(** *** Shapes of texts *)

Lemma hyphen_separated_slug_chars s :
  forall b, hyphen_separated b s = true -> all_chars is_slug_char s = true.
Proof.
  induction s as [|c r IH]; intros b; [reflexivity|].
  cbn [hyphen_separated all_chars]. unfold is_slug_char at 1.
  destruct (is_slug_alnum c); cbn [orb andb]; [apply IH|].
  intros H. apply andb_true_iff in H as [H Hr].
  apply andb_true_iff in H as [-> _]. apply (IH _ Hr).
Qed.

Lemma hyphen_separated_start s :
  hyphen_separated true s = true -> starts_with_hyphen s = false.
Proof.
  destruct s as [|c r]; [reflexivity|]. cbn [hyphen_separated starts_with_hyphen].
  destruct (is_slug_alnum c) eqn:Hc; [intros _; apply slug_alnum_not_hyphen, Hc|].
  cbn. rewrite andb_false_r. discriminate.
Qed.

Lemma hyphen_separated_alnum s b :
  all_chars is_slug_alnum s = true -> hyphen_separated b s = true.
Proof.
  revert b. induction s as [|c r IH]; intros b; [reflexivity|].
  cbn [all_chars hyphen_separated]. intros H.
  apply andb_true_iff in H as [-> Hr]. apply IH, Hr.
Qed.

Lemma hyphen_separated_append a c :
  forall b, a <> "" ->
    hyphen_separated b (a ++ c)
    = (hyphen_separated b a && hyphen_separated (ends_with_hyphen a) c)%bool.
Proof.
  induction a as [|x a IH]; intros b Ha; [congruence|].
  rewrite append_cons. destruct a as [|y a].
  - change ("" ++ c) with c. cbn [hyphen_separated ends_with_hyphen].
    destruct (is_slug_alnum x) eqn:Hx.
    + rewrite (slug_alnum_not_hyphen x Hx). reflexivity.
    + destruct (Ascii.eqb x hyphen), b; reflexivity.
  - cbn [hyphen_separated ends_with_hyphen].
    destruct (is_slug_alnum x).
    + apply IH. discriminate.
    + rewrite (IH true) by discriminate.
      rewrite !andb_assoc. reflexivity.
Qed.

Lemma rtrim_no_trailing_hyphen s : ends_with_hyphen (rtrim_hyphen s) = false.
Proof.
  induction s as [|c r IH]; [reflexivity|]. cbn [rtrim_hyphen].
  destruct (Ascii.eqb c hyphen) eqn:Hc; cbn [andb].
  - destruct (String.eqb_spec (rtrim_hyphen r) "") as [He|Hne]; [reflexivity|].
    cbn [ends_with_hyphen]. destruct (rtrim_hyphen r); [congruence|exact IH].
  - cbn [ends_with_hyphen]. destruct (rtrim_hyphen r); [exact Hc|exact IH].
Qed.

Lemma rtrim_id s : ends_with_hyphen s = false -> rtrim_hyphen s = s.
Proof.
  induction s as [|c r IH]; [reflexivity|]. cbn [ends_with_hyphen rtrim_hyphen].
  destruct r as [|d r].
  - intros ->. reflexivity.
  - intros H. rewrite (IH H). cbn [String.eqb]. rewrite andb_false_r.
    reflexivity.
Qed.

Lemma slug_base_no_trailing_hyphen input :
  ends_with_hyphen (slug_base input) = false.
Proof. unfold slug_base, btrim_hyphen. apply rtrim_no_trailing_hyphen. Qed.

(** A text whose hyphens stand alone, none first and none last, is well
    formed as soon as it is not empty. *)
Lemma separated_well_formed s :
  s <> "" -> hyphen_separated true s = true -> ends_with_hyphen s = false ->
  well_formed_slug s = true.
Proof.
  intros Hne Hsep Hend. unfold well_formed_slug, matches_slug_class.
  rewrite (hyphen_separated_slug_chars s true Hsep).
  rewrite (hyphen_separated_start s Hsep), Hend.
  destruct (String.eqb_spec s ""); [congruence|reflexivity].
Qed.

Lemma effective_base_shape draw input :
  effective_base draw input <> "" /\
  hyphen_separated true (effective_base draw input) = true /\
  ends_with_hyphen (effective_base draw input) = false.
Proof.
  destruct (String.eqb_spec (slug_base input) "") as [He|Hne].
  - rewrite (effective_base_fallback draw input He).
    pose proof (hex_digits_slug_alnum 8 (draw / 2 ^ 96)%N) as Hhex.
    split; [discriminate|]. split.
    + rewrite hyphen_separated_append by discriminate.
      rewrite (hyphen_separated_alnum _ _ Hhex). reflexivity.
    + rewrite ends_with_hyphen_append by discriminate.
      apply ends_with_slug_alnum, Hhex.
  - rewrite (effective_base_normal draw input Hne).
    split; [exact Hne|]. split.
    + apply slug_base_separated.
    + apply slug_base_no_trailing_hyphen.
Qed.

Lemma candidate_shape base k :
  base <> "" -> hyphen_separated true base = true ->
  ends_with_hyphen base = false -> (0 <= k)%Z ->
  candidate base k <> "" /\
  hyphen_separated true (candidate base k) = true /\
  ends_with_hyphen (candidate base k) = false.
Proof.
  intros Hne Hsep Hend Hk. unfold candidate.
  destruct (Z.eqb_spec k 0) as [->|Hk0]; [tauto|].
  destruct (int4_to_text_positive k) as [Hdigits Hnonempty]; [lia|].
  pose proof (all_chars_impl _ _ _ digit_is_slug_alnum Hdigits) as Halnum.
  split; [|split].
  - destruct base; [congruence|]. rewrite append_cons. discriminate.
  - rewrite hyphen_separated_append, Hsep, Hend by exact Hne.
    rewrite hyphen_separated_append by discriminate.
    rewrite (hyphen_separated_alnum _ _ Halnum). reflexivity.
  - rewrite ends_with_hyphen_append by discriminate.
    rewrite ends_with_hyphen_append by exact Hnonempty.
    apply ends_with_slug_alnum, Halnum.
Qed.

Lemma slug_base_fixed s :
  hyphen_separated true s = true -> ends_with_hyphen s = false ->
  slug_base s = s.
Proof.
  intros Hsep Hend. unfold slug_base, regexp_replace_non_alnum, btrim_hyphen.
  rewrite (replace_runs_separated_id _ false)
    by (eapply hyphen_separated_weaken, Hsep).
  rewrite (lower_separated_id _ true Hsep), (ltrim_separated_id _ Hsep).
  apply rtrim_id, Hend.
Qed.

Lemma lower_char_idempotent c : lower_char (lower_char c) = lower_char c.
Proof. by_cases_on_char c. Qed.

Lemma is_alnum_lower_char c : is_alnum (lower_char c) = is_alnum c.
Proof. by_cases_on_char c. Qed.

Lemma lower_replace_runs_lower s :
  forall b, lower (replace_runs b (lower s)) = lower (replace_runs b s).
Proof.
  induction s as [|c r IH]; intros b; [reflexivity|].
  cbn [lower replace_runs]. rewrite is_alnum_lower_char.
  destruct (is_alnum c).
  - cbn [lower]. rewrite lower_char_idempotent, IH. reflexivity.
  - destruct b; [apply IH|]. cbn [lower]. rewrite IH. reflexivity.
Qed.

(** *** Normalization *)

(** X1.  The texts normalization leaves as they are are exactly those
    over [[a-z0-9-]] whose hyphens stand alone, none first and none
    last: such a slug, typed by its owner, is the base slug itself. *)
Theorem slug_base_fixes_exactly s :
  slug_base s = s <->
  hyphen_separated true s = true /\ ends_with_hyphen s = false.
Proof.
  split.
  - intros <-. split;
      [apply slug_base_separated | apply slug_base_no_trailing_hyphen].
  - intros [Hsep Hend]. apply slug_base_fixed; assumption.
Qed.

(** X2.  Normalization does not tell capitals from small letters:
    lower-casing the ASCII letters of the input first gives the same
    base slug. *)
Theorem slug_base_lower input : slug_base (lower input) = slug_base input.
Proof.
  unfold slug_base, regexp_replace_non_alnum.
  rewrite lower_replace_runs_lower. reflexivity.
Qed.

(** *** The generator *)

(** Whatever the generator returns on a text is a candidate of the
    effective base with which no row conflicts. *)
Lemma generate_returned rows draw input table_name excl s :
  generate_unique_slug rows draw (Some input) table_name excl
  = Returned (Some s) ->
  exists k, (0 <= k)%Z /\ s = candidate (effective_base draw input) k /\
            taken rows excl (effective_base draw input) k = false.
Proof.
  destruct (generate_outcome rows draw input table_name excl)
    as [k [Hk [Hfree [_ ->]]]].
  destruct (k <=? int4_max)%Z; [|discriminate].
  intros [= <-]. exists k. repeat split; try assumption; lia.
Qed.

Lemma generate_returned_shape rows draw input table_name excl s :
  generate_unique_slug rows draw (Some input) table_name excl
  = Returned (Some s) ->
  (s <> "" /\ hyphen_separated true s = true /\ ends_with_hyphen s = false) /\
  forall r, In r rows -> ~ conflicting excl s r.
Proof.
  intros H. apply generate_returned in H as [k [Hk [-> Hfree]]].
  destruct (effective_base_shape draw input) as [Hne [Hsep Hend]].
  split; [apply candidate_shape; assumption|].
  apply slug_exists_free, Hfree.
Qed.

Lemma generate_returns rows draw input table_name excl :
  (Z.of_nat (List.length rows) <= int4_max)%Z ->
  exists s, generate_unique_slug rows draw (Some input) table_name excl
            = Returned (Some s).
Proof.
  intros Hrows.
  destruct (generate_outcome rows draw input table_name excl)
    as [k [Hk [_ [_ ->]]]].
  destruct (Z.leb_spec k int4_max); [eexists; reflexivity|lia].
Qed.

(** X3.  On a table of fewer than 2^31 rows the generator returns, for
    every input text, a slug that is well formed (not empty, over
    [[a-z0-9-]], no hyphen first or last), that normalization leaves as
    it is, and with which no row conflicts. *)
Theorem generate_well_formed_free rows draw input table_name excl :
  (Z.of_nat (List.length rows) <= int4_max)%Z ->
  exists s,
    generate_unique_slug rows draw (Some input) table_name excl
    = Returned (Some s) /\
    well_formed_slug s = true /\
    slug_base s = s /\
    forall r, In r rows -> ~ conflicting excl s r.
Proof.
  intros Hrows.
  destruct (generate_returns rows draw input table_name excl Hrows) as [s Hs].
  destruct (generate_returned_shape _ _ _ _ _ _ Hs) as [[Hne [Hsep Hend]] Hfree].
  exists s. split; [exact Hs|]. split; [|split].
  - apply separated_well_formed; assumption.
  - apply slug_base_fixed; assumption.
  - exact Hfree.
Qed.

Lemma generate_well_formed_free_witness :
  let rows := [card (Some 1%N) (Some "jane-doe") None] in
  exists s,
    generate_unique_slug rows 0%N (Some "Jane  DOE!") "business_cards"
      (Some 2%N)
    = Returned (Some s) /\
    well_formed_slug s = true /\
    slug_base s = s /\
    forall r, In r rows -> ~ conflicting (Some 2%N) s r.
Proof.
  apply generate_well_formed_free. vm_compute. discriminate.
Defined.

(** X4.  On NULL the generator returns NULL, whatever the table holds:
    no fallback is drawn and no row is found in conflict. *)
Theorem generate_null rows draw table_name excl :
  generate_unique_slug rows draw None table_name excl = Returned None.
Proof.
  unfold generate_unique_slug. cbn [option_map sql_eq holds probe].
  rewrite slug_exists_null. reflexivity.
Qed.

(** X5.  When no row conflicts with the base slug (so also when the only
    rows that hold it belong to the excluded owner) the generator
    returns the base slug as it is, without a suffix. *)
Theorem generate_keeps_free_base rows draw input table_name excl :
  (forall r, In r rows -> ~ conflicting excl (effective_base draw input) r) ->
  generate_unique_slug rows draw (Some input) table_name excl
  = Returned (Some (effective_base draw input)).
Proof.
  intros Hfree.
  rewrite <- (candidate_zero (effective_base draw input)) at 1.
  apply generate_first_free_at.
  - unfold int4_max. lia.
  - intros j Hj. lia.
  - apply slug_exists_free. exact Hfree.
Qed.

Lemma generate_keeps_free_base_witness :
  generate_unique_slug
    [card (Some 1%N) (Some "alice") None; card (Some 2%N) (Some "bob") None]
    0%N (Some "Alice") "business_cards" (Some 1%N)
  = Returned (Some (effective_base 0%N "Alice")).
Proof.
  apply generate_keeps_free_base.
  intros r [<-|[<-|[]]] [Hslug [v [Hv Hne]]]; vm_compute in Hslug, Hv;
    congruence.
Defined.

(** X6.  A slug the generator has returned is stable: asked again for
    that slug over the same table and with the same owner excluded, the
    generator returns it unchanged. *)
Theorem generate_stable rows draw draw' input table_name excl s :
  generate_unique_slug rows draw (Some input) table_name excl
  = Returned (Some s) ->
  generate_unique_slug rows draw' (Some s) table_name excl
  = Returned (Some s).
Proof.
  intros H.
  destruct (generate_returned_shape _ _ _ _ _ _ H) as [[Hne [Hsep Hend]] Hfree].
  assert (Hbase : effective_base draw' s = s).
  { rewrite effective_base_normal; rewrite (slug_base_fixed s Hsep Hend);
      [reflexivity|exact Hne]. }
  rewrite <- Hbase at 2. apply generate_keeps_free_base.
  rewrite Hbase. exact Hfree.
Qed.

Lemma generate_stable_witness :
  generate_unique_slug [card (Some 1%N) (Some "a") None] 5%N (Some "a-1")
    "business_cards" None
  = Returned (Some "a-1").
Proof.
  apply (generate_stable _ 0%N 5%N "A"). reflexivity.
Defined.

(** X7.  The generator raises "integer out of range" exactly when every
    candidate of the counters 0 to 2147483647 is taken; in every other
    case it returns. *)
Theorem generate_raises_iff rows draw input table_name excl :
  generate_unique_slug rows draw (Some input) table_name excl
  = Raised integer_out_of_range <->
  forall j, (0 <= j <= int4_max)%Z ->
            taken rows excl (effective_base draw input) j = true.
Proof.
  split; [|apply generate_all_taken].
  destruct (generate_outcome rows draw input table_name excl)
    as [k [Hk [Hfree [Hbelow ->]]]].
  destruct (Z.leb_spec k int4_max) as [Hle|Hgt]; [discriminate|].
  intros _ j Hj. apply Hbelow. lia.
Qed.

(** *** The trigger *)

(** A call of the generator from the trigger writes a well-formed slug
    with which no row conflicts. *)
Lemma trigger_generates rows draw input NEW :
  (Z.of_nat (List.length rows) <= int4_max)%Z ->
  exists s,
    (s' ← generate_unique_slug rows draw (Some input) "business_cards"
            (user_id NEW);
     mret (with_slug NEW s')) = Returned (with_slug NEW (Some s)) /\
    well_formed_slug s = true /\
    forall r, In r rows -> ~ conflicting (user_id NEW) s r.
Proof.
  intros Hrows.
  destruct (generate_returns rows draw input "business_cards" (user_id NEW)
              Hrows) as [s Hs].
  destruct (generate_returned_shape _ _ _ _ _ _ Hs) as [[Hne [Hsep Hend]] Hfree].
  exists s. rewrite Hs. split; [reflexivity|]. split; [|exact Hfree].
  apply separated_well_formed; assumption.
Qed.

(** X8.  On INSERT into a table of fewer than 2^31 rows the trigger
    always writes a slug, whatever slug and title the new row came
    with: the row is the new one with a well-formed slug that no row of
    another user (no row at all, if the new row has no user) holds. *)
Theorem insert_assigns_free_slug rows draw OLD NEW :
  (Z.of_nat (List.length rows) <= int4_max)%Z ->
  exists s,
    set_card_slug rows draw INSERT OLD NEW = Returned (with_slug NEW (Some s)) /\
    well_formed_slug s = true /\
    forall r, In r rows -> ~ conflicting (user_id NEW) s r.
Proof.
  intros Hrows. unfold set_card_slug.
  destruct (slug NEW) as [n|]; cbn [is_null sql_eq sql_or holds].
  - destruct (String.eqb n ""); cbn [sql_or holds];
      apply trigger_generates, Hrows.
  - apply trigger_generates, Hrows.
Qed.

Lemma insert_assigns_free_slug_witness :
  let rows := [card (Some 1%N) (Some "jane") (Some "Jane")] in
  let new := card (Some 2%N) None (Some "Jane") in
  exists s,
    set_card_slug rows 0%N INSERT None new = Returned (with_slug new (Some s)) /\
    well_formed_slug s = true /\
    forall r, In r rows -> ~ conflicting (user_id new) s r.
Proof.
  apply insert_assigns_free_slug. vm_compute. discriminate.
Defined.

(** X9.  On an UPDATE that does not supply the stored slug again (it
    supplies another one, an empty one or NULL, the stored one not being
    NULL) the trigger writes a well-formed slug that no row of another
    user holds, on a table of fewer than 2^31 rows. *)
Theorem update_changed_slug_recomputed rows draw OLD NEW o :
  slug OLD = Some o -> slug NEW <> Some o ->
  (Z.of_nat (List.length rows) <= int4_max)%Z ->
  exists s,
    set_card_slug rows draw UPDATE (Some OLD) NEW
    = Returned (with_slug NEW (Some s)) /\
    well_formed_slug s = true /\
    forall r, In r rows -> ~ conflicting (user_id NEW) s r.
Proof.
  intros Hold Hnew Hrows. unfold set_card_slug.
  cbn [mbind option_bind]. rewrite Hold.
  destruct (slug NEW) as [n|]; cbn [is_null sql_eq sql_neq sql_or holds].
  - destruct (String.eqb n ""); cbn [sql_or holds];
      [apply trigger_generates, Hrows|].
    destruct (String.eqb_spec o n) as [->|_]; [congruence|].
    cbn [negb]. apply trigger_generates, Hrows.
  - apply trigger_generates, Hrows.
Qed.

Lemma update_changed_slug_recomputed_witness :
  let old := card (Some 2%N) (Some "bob") (Some "Bob") in
  let new := card (Some 2%N) (Some "Alice") (Some "Bob") in
  let rows := [card (Some 1%N) (Some "alice") None; old] in
  exists s,
    set_card_slug rows 0%N UPDATE (Some old) new
    = Returned (with_slug new (Some s)) /\
    well_formed_slug s = true /\
    forall r, In r rows -> ~ conflicting (user_id new) s r.
Proof.
  apply (update_changed_slug_recomputed _ _ _ _ "bob").
  - reflexivity.
  - discriminate.
  - vm_compute. discriminate.
Defined.

(** X10.  On an UPDATE of a row whose stored slug is NULL, a new slug
    that is not empty is written exactly as supplied: [OLD.slug !=
    NEW.slug] is NULL, so the generator is not called, and the slug is
    neither normalized nor compared with the other rows. *)
Theorem update_from_null_slug_verbatim rows draw OLD NEW s :
  OLD ≫= slug = None -> slug NEW = Some s -> s <> "" ->
  set_card_slug rows draw UPDATE OLD NEW = Returned NEW.
Proof.
  intros Hold Hnew Hs. unfold set_card_slug. rewrite Hold, Hnew.
  cbn [is_null sql_eq sql_neq sql_or holds].
  destruct (String.eqb_spec s "") as [?|_]; [tauto|]. reflexivity.
Qed.

Lemma update_from_null_slug_verbatim_witness :
  let old := card (Some 2%N) None (Some "Bob") in
  let new := card (Some 2%N) (Some "Not A Slug!") (Some "Bob") in
  set_card_slug [card (Some 1%N) (Some "Not A Slug!") None; old] 0%N
    UPDATE (Some old) new
  = Returned new.
Proof.
  apply (update_from_null_slug_verbatim _ _ _ _ "Not A Slug!").
  - reflexivity.
  - reflexivity.
  - discriminate.
Defined.

End SlugProperties.

(* ===================================================================== *)
(** ** Facts about video links and about what the page shows *)
(* ===================================================================== *)

Module CardPageFacts.

Import PublicCard CardPage TextFacts PublicCardFacts.
Local Open Scope string_scope.

(** *** Searching and cutting texts *)

Lemma includes_unfold pattern s :
  includes pattern s
  = (starts_with pattern s ||
     match s with
     | EmptyString => false
     | String _ r => includes pattern r
     end)%bool.
Proof. destruct s; reflexivity. Qed.

Lemma starts_with_iff pattern :
  forall s, starts_with pattern s = true <-> exists t, s = pattern ++ t.
Proof.
  induction pattern as [|a p IH]; intros s.
  - split; [intros _; exists s; reflexivity | reflexivity].
  - destruct s as [|b s]; cbn [starts_with].
    + split; [discriminate|]. intros [t Ht]. rewrite append_cons in Ht.
      discriminate.
    + rewrite andb_true_iff, Ascii.eqb_eq, IH. split.
      * intros [-> [t ->]]. exists t. reflexivity.
      * intros [t Ht]. rewrite append_cons in Ht. injection Ht as -> ->.
        split; [reflexivity|]. exists t. reflexivity.
Qed.

Lemma includes_iff pattern s :
  includes pattern s = true <-> exists x y, s = x ++ pattern ++ y.
Proof.
  induction s as [|c r IH]; rewrite includes_unfold, orb_true_iff.
  - split.
    + intros [H|H]; [|discriminate]. apply starts_with_iff in H as [t Ht].
      exists "", t. exact Ht.
    + intros [x [y H]]. left. apply starts_with_iff.
      destruct x; [exists y; exact H | rewrite append_cons in H; discriminate].
  - rewrite IH, starts_with_iff. split.
    + intros [[t Ht]|[x [y Hxy]]].
      * exists "", t. exact Ht.
      * exists (String c x), y. rewrite append_cons, Hxy. reflexivity.
    + intros [x [y H]]. destruct x as [|d x].
      * left. exists y. exact H.
      * right. rewrite append_cons in H. injection H as -> ->.
        exists x, y. reflexivity.
Qed.

(** A text that includes a pattern includes every end of the pattern. *)
Lemma includes_pattern_end a b s :
  includes (a ++ b) s = true -> includes b s = true.
Proof.
  rewrite !includes_iff. intros [x [y ->]].
  exists (x ++ a), y. rewrite !append_assoc. reflexivity.
Qed.

(** A pattern cannot start inside a text that lacks its first character. *)
Lemma includes_pass ch pattern pre rest :
  includes (String ch "") pre = false ->
  includes (String ch pattern) (pre ++ rest) = includes (String ch pattern) rest.
Proof.
  induction pre as [|c pre IH]; [reflexivity|].
  rewrite append_cons. cbn [includes starts_with].
  destruct (Ascii.eqb ch c); cbn [andb orb]; [discriminate|exact IH].
Qed.

Lemma split_from_pass ch sep pre rest :
  forall piece,
    includes (String ch "") pre = false ->
    split_from (String ch sep) 0 piece (pre ++ rest)
    = split_from (String ch sep) 0 (piece ++ pre) rest.
Proof.
  induction pre as [|c pre IH]; intros piece.
  - rewrite append_empty_r. reflexivity.
  - rewrite append_cons. cbn [includes split_from starts_with].
    destruct (Ascii.eqb ch c); cbn [andb orb]; [discriminate|].
    intros H. rewrite (IH _ H), append_assoc. reflexivity.
Qed.

(** Without the separator nothing is cut. *)
Lemma split_from_absent sep s :
  forall piece,
    includes sep s = false -> split_from sep 0 piece s = [piece ++ s].
Proof.
  induction s as [|c r IH]; intros piece.
  - rewrite append_empty_r. reflexivity.
  - cbn [includes split_from]. intros H.
    apply orb_false_iff in H as [-> Hr].
    rewrite (IH _ Hr), append_assoc. reflexivity.
Qed.

Lemma split_from_not_nil sep s :
  forall skip piece, split_from sep skip piece s <> [].
Proof.
  induction s as [|c r IH]; intros skip piece; cbn [split_from];
    [discriminate|].
  destruct skip; [|apply IH].
  destruct (starts_with sep (String c r)); [discriminate|apply IH].
Qed.

(** With the separator there are at least two pieces. *)
Lemma split_from_present sep s :
  sep <> "" ->
  forall piece,
    includes sep s = true ->
    exists a b l, split_from sep 0 piece s = a :: b :: l.
Proof.
  intros Hsep. induction s as [|c r IH]; intros piece.
  - cbn [includes]. rewrite orb_false_r. intros H.
    apply starts_with_iff in H as [t Ht]. destruct sep; [congruence|].
    rewrite append_cons in Ht. discriminate.
  - cbn [includes split_from].
    destruct (starts_with sep (String c r)); cbn [orb].
    + intros _.
      destruct (split_from sep (String.length sep - 1) "" r) as [|b l] eqn:E;
        [destruct (split_from_not_nil _ _ _ _ E)|].
      exists piece, b, l. reflexivity.
    + apply IH.
Qed.

(** Up to a one-character separator that comes first after [a], or to
    the end, the first piece is [a]. *)
Lemma split_head ch a z :
  forall piece,
    includes (String ch "") a = false ->
    z = "" \/ (exists t, z = String ch t) ->
    nth_error (split_from (String ch "") 0 piece (a ++ z)) 0
    = Some (piece ++ a).
Proof.
  induction a as [|c a IH]; intros piece Ha Hz.
  - rewrite append_empty_r. change ("" ++ z) with z.
    destruct Hz as [->|[t ->]]; [reflexivity|].
    cbn [split_from starts_with]. rewrite Ascii.eqb_refl. reflexivity.
  - rewrite append_cons. cbn [includes starts_with] in Ha.
    cbn [split_from starts_with].
    destruct (Ascii.eqb ch c); cbn [andb orb] in *; [discriminate|].
    rewrite (IH _ Ha Hz), append_assoc. reflexivity.
Qed.

(** An id is found whenever the link includes the separator. *)
Lemma video_id_defined sep stop url :
  sep <> "" -> includes sep url = true ->
  exists id, video_id sep stop url = Some id.
Proof.
  intros Hsep H. unfold video_id, split.
  destruct (split_from_present sep url Hsep "" H) as [a [b [l ->]]].
  cbn [nth_error mbind option_bind].
  destruct (split_from stop 0 "" b) as [|id l'] eqn:E;
    [destruct (split_from_not_nil _ _ _ _ E)|].
  exists id. reflexivity.
Qed.

Lemma split_from_skip sep passed x :
  forall piece,
    split_from sep (String.length passed) piece (passed ++ x)
    = split_from sep 0 piece x.
Proof.
  induction passed as [|c passed IH]; intros piece.
  - destruct x; reflexivity.
  - rewrite append_cons. cbn [String.length split_from]. apply IH.
Qed.

(** Where the separator starts, a piece ends. *)
Lemma split_from_cut ch sep x piece :
  split_from (String ch sep) 0 piece (String ch sep ++ x)
  = piece :: split_from (String ch sep) 0 "" x.
Proof.
  rewrite append_cons. cbn [split_from].
  assert (Hs : starts_with (String ch sep) (String ch (sep ++ x)) = true)
    by (apply starts_with_iff; exists x; reflexivity).
  rewrite Hs. f_equal.
  replace (String.length (String ch sep) - 1) with (String.length sep)
    by (cbn [String.length]; lia).
  apply split_from_skip.
Qed.

(** The id of a link made of a start without the separator's first
    character, the separator, an id without the stop character, and a
    tail that is empty or starts with the stop character. *)
Lemma video_id_of ch sep stop pre id tail :
  includes (String ch "") pre = false ->
  includes (String ch sep) (id ++ tail) = false ->
  includes (String stop "") id = false ->
  tail = "" \/ (exists t, tail = String stop t) ->
  video_id (String ch sep) (String stop "")
    (pre ++ String ch sep ++ id ++ tail)
  = Some id.
Proof.
  intros Hpre Hrest Hid Htail. unfold video_id, split.
  rewrite (split_from_pass _ _ _ _ _ Hpre).
  rewrite split_from_cut, (split_from_absent _ _ _ Hrest).
  cbn [nth_error mbind option_bind].
  change ("" ++ id ++ tail) with (id ++ tail).
  apply (split_head stop id tail "" Hid Htail).
Qed.

(** *** Video links *)

Example embed_watch_sample :
  getVideoEmbedUrl "https://www.youtube.com/watch?v=dQw4w9WgXcQ&t=10s"
  = Some "https://www.youtube.com/embed/dQw4w9WgXcQ".
Proof. reflexivity. Qed.

Example embed_first_separator_sample :
  getVideoEmbedUrl "https://dev=1.example/youtube.com/watch?v=ID"
  = Some "https://www.youtube.com/embed/1.example/youtube.com/watch?".
Proof. reflexivity. Qed.

Example split_sample : split "ab" "xababy" = ["x"; ""; "y"].
Proof. reflexivity. Qed.

Lemma youtube_link_id_aux url :
  isYoutube url = true ->
  exists id,
    getVideoEmbedUrl url = Some ("https://www.youtube.com/embed/" ++ id).
Proof.
  unfold isYoutube, getVideoEmbedUrl.
  destruct (includes "youtube.com/watch?v=" url) eqn:Hwatch.
  - intros _. eexists. reflexivity.
  - cbn [orb]. intros ->. eexists. reflexivity.
Qed.

Lemma other_link_embed_aux url :
  isYoutube url = false ->
  getVideoEmbedUrl url = None \/
  exists id,
    getVideoEmbedUrl url = Some ("https://player.vimeo.com/video/" ++ id).
Proof.
  unfold isYoutube, getVideoEmbedUrl. intros H.
  apply orb_false_iff in H as [-> ->].
  destruct (includes "vimeo.com/" url); [right; eexists|left]; reflexivity.
Qed.

(** X11.  For a link [isYoutube] accepts, an id is always found (the
    text "undefined" never stands in for it), and the embed address and
    the thumbnail are built on that same id; the thumbnail is empty when
    the id is. *)
Theorem youtube_link_id url :
  isYoutube url = true ->
  exists id,
    getVideoEmbedUrl url = Some ("https://www.youtube.com/embed/" ++ id) /\
    getYoutubeThumbnail url
    = match id with
      | EmptyString => ""
      | _ => "https://img.youtube.com/vi/" ++ id ++ "/hqdefault.jpg"
      end.
Proof.
  unfold isYoutube, getVideoEmbedUrl, getYoutubeThumbnail.
  destruct (includes "youtube.com/watch?v=" url) eqn:Hwatch.
  - intros _.
    destruct (video_id_defined "v=" "&" url) as [id Hid]; [discriminate| |].
    + apply (includes_pattern_end "youtube.com/watch?" "v="), Hwatch.
    + exists id. rewrite Hid. destruct id; split; reflexivity.
  - cbn [orb]. intros Hshort. rewrite Hshort.
    destruct (video_id_defined "youtu.be/" "?" url) as [id Hid];
      [discriminate|exact Hshort|].
    exists id. rewrite Hid. destruct id; split; reflexivity.
Qed.

Lemma youtube_link_id_witness :
  exists id,
    getVideoEmbedUrl "https://youtu.be/dQw4w9WgXcQ"
    = Some ("https://www.youtube.com/embed/" ++ id) /\
    getYoutubeThumbnail "https://youtu.be/dQw4w9WgXcQ"
    = match id with
      | EmptyString => ""
      | _ => "https://img.youtube.com/vi/" ++ id ++ "/hqdefault.jpg"
      end.
Proof. apply youtube_link_id. reflexivity. Defined.

Lemma includes_char_app ch a b :
  includes (String ch "") (a ++ b)
  = (includes (String ch "") a || includes (String ch "") b)%bool.
Proof.
  induction a as [|c a IH]; [destruct b; reflexivity|].
  rewrite append_cons. cbn [includes starts_with].
  rewrite IH, orb_assoc. reflexivity.
Qed.

(** The first piece cut at a character does not hold that character. *)
Lemma split_head_without ch x :
  forall piece h,
    includes (String ch "") piece = false ->
    nth_error (split_from (String ch "") 0 piece x) 0 = Some h ->
    includes (String ch "") h = false.
Proof.
  induction x as [|c r IH]; intros piece h Hpiece; cbn [split_from].
  - intros [= <-]. exact Hpiece.
  - cbn [starts_with]. destruct (Ascii.eqb ch c) eqn:Hc; cbn [andb].
    + intros [= <-]. exact Hpiece.
    + apply IH. rewrite includes_char_app, Hpiece.
      cbn [includes starts_with]. rewrite Hc. reflexivity.
Qed.

Lemma video_id_without_stop sep ch url id :
  video_id sep (String ch "") url = Some id ->
  includes (String ch "") id = false.
Proof.
  unfold video_id, split.
  destruct (nth_error (split_from sep 0 "" url) 1) as [rest|];
    cbn [mbind option_bind]; [|discriminate].
  apply split_head_without. reflexivity.
Qed.

(** X12.  A link [isYoutube] rejects has no thumbnail.  When [isVimeo]
    accepts it, [url.split('vimeo.com/')[1]?.split('?')[0]] is always
    defined, a text without "?", and the link is embedded through the
    Vimeo player on that text; otherwise it is not embedded ([null]). *)
Theorem other_link_embed url :
  isYoutube url = false ->
  getYoutubeThumbnail url = "" /\
  if isVimeo url
  then exists id,
         video_id "vimeo.com/" "?" url = Some id /\
         includes "?" id = false /\
         getVideoEmbedUrl url = Some ("https://player.vimeo.com/video/" ++ id)
  else getVideoEmbedUrl url = None.
Proof.
  unfold isYoutube, isVimeo, getVideoEmbedUrl, getYoutubeThumbnail.
  intros H. apply orb_false_iff in H as [-> ->]. split; [reflexivity|].
  destruct (includes "vimeo.com/" url) eqn:Hvimeo; [|reflexivity].
  destruct (video_id_defined "vimeo.com/" "?" url) as [id Hid];
    [discriminate|exact Hvimeo|].
  exists id. split; [exact Hid|]. split.
  - apply (video_id_without_stop _ _ _ _ Hid).
  - rewrite Hid. reflexivity.
Qed.

Lemma other_link_embed_witness :
  getYoutubeThumbnail "https://vimeo.com/76979871?share=copy" = "" /\
  if isVimeo "https://vimeo.com/76979871?share=copy"
  then exists id,
         video_id "vimeo.com/" "?" "https://vimeo.com/76979871?share=copy"
         = Some id /\
         includes "?" id = false /\
         getVideoEmbedUrl "https://vimeo.com/76979871?share=copy"
         = Some ("https://player.vimeo.com/video/" ++ id)
  else getVideoEmbedUrl "https://vimeo.com/76979871?share=copy" = None.
Proof. apply other_link_embed. reflexivity. Defined.

(** X13.  A watch link: a start without the letter v (as "https://www."
    or "https://m."), "youtube.com/watch?v=", an id without "&", and
    nothing more or further parameters after "&", none of them with
    "v=".  It is embedded on that id, and the thumbnail is that of the
    id. *)
Theorem youtube_watch_link pre id tail :
  includes "v" pre = false ->
  includes "&" id = false ->
  includes "v=" (id ++ tail) = false ->
  tail = "" \/ (exists t, tail = "&" ++ t) ->
  getVideoEmbedUrl (pre ++ "youtube.com/watch?v=" ++ id ++ tail)
  = Some ("https://www.youtube.com/embed/" ++ id) /\
  getYoutubeThumbnail (pre ++ "youtube.com/watch?v=" ++ id ++ tail)
  = match id with
    | EmptyString => ""
    | _ => "https://img.youtube.com/vi/" ++ id ++ "/hqdefault.jpg"
    end.
Proof.
  intros Hpre Hid Hrest Htail.
  assert (Hwatch : includes "youtube.com/watch?v="
                     (pre ++ "youtube.com/watch?v=" ++ id ++ tail) = true)
    by (apply includes_iff; exists pre, (id ++ tail); reflexivity).
  assert (Hvid : video_id "v=" "&"
                   (pre ++ "youtube.com/watch?v=" ++ id ++ tail) = Some id).
  { change (pre ++ "youtube.com/watch?v=" ++ id ++ tail)
      with (pre ++ "youtube.com/watch?" ++ "v=" ++ id ++ tail).
    rewrite <- append_assoc. apply video_id_of; try assumption.
    rewrite (includes_pass "v" "" pre), ?Hpre by exact Hpre. reflexivity. }
  unfold getVideoEmbedUrl, getYoutubeThumbnail. rewrite Hwatch, Hvid.
  destruct id; split; reflexivity.
Qed.

Lemma youtube_watch_link_witness :
  getVideoEmbedUrl
    ("https://www." ++ "youtube.com/watch?v=" ++ "dQw4w9WgXcQ" ++ "&t=10s")
  = Some ("https://www.youtube.com/embed/" ++ "dQw4w9WgXcQ") /\
  getYoutubeThumbnail
    ("https://www." ++ "youtube.com/watch?v=" ++ "dQw4w9WgXcQ" ++ "&t=10s")
  = "https://img.youtube.com/vi/" ++ "dQw4w9WgXcQ" ++ "/hqdefault.jpg".
Proof.
  apply (youtube_watch_link "https://www." "dQw4w9WgXcQ" "&t=10s").
  - reflexivity.
  - reflexivity.
  - reflexivity.
  - right. eexists. reflexivity.
Defined.

(** X14.  A short link: a start without the letter y (as "https://"),
    "youtu.be/", an id without "?", and nothing more or parameters
    after "?", with no further YouTube marker.  It is embedded on that
    id, and the thumbnail is that of the id. *)
Theorem youtube_short_link pre id tail :
  includes "y" pre = false ->
  includes "?" id = false ->
  includes "youtube.com/watch?v=" (id ++ tail) = false ->
  includes "youtu.be/" (id ++ tail) = false ->
  tail = "" \/ (exists t, tail = "?" ++ t) ->
  getVideoEmbedUrl (pre ++ "youtu.be/" ++ id ++ tail)
  = Some ("https://www.youtube.com/embed/" ++ id) /\
  getYoutubeThumbnail (pre ++ "youtu.be/" ++ id ++ tail)
  = match id with
    | EmptyString => ""
    | _ => "https://img.youtube.com/vi/" ++ id ++ "/hqdefault.jpg"
    end.
Proof.
  intros Hpre Hid Hwatch Hrest Htail.
  assert (Hnot : includes "youtube.com/watch?v="
                   (pre ++ "youtu.be/" ++ id ++ tail) = false).
  { rewrite (includes_pass "y" _ pre) by exact Hpre.
    change (includes "youtube.com/watch?v=" (id ++ tail) = false).
    exact Hwatch. }
  assert (Hshort : includes "youtu.be/" (pre ++ "youtu.be/" ++ id ++ tail)
                   = true)
    by (apply includes_iff; exists pre, (id ++ tail); reflexivity).
  assert (Hvid : video_id "youtu.be/" "?" (pre ++ "youtu.be/" ++ id ++ tail)
                 = Some id)
    by (apply video_id_of; assumption).
  unfold getVideoEmbedUrl, getYoutubeThumbnail. rewrite Hnot, Hshort, Hvid.
  destruct id; split; reflexivity.
Qed.

Lemma youtube_short_link_witness :
  getVideoEmbedUrl ("https://" ++ "youtu.be/" ++ "dQw4w9WgXcQ" ++ "?t=42")
  = Some ("https://www.youtube.com/embed/" ++ "dQw4w9WgXcQ") /\
  getYoutubeThumbnail ("https://" ++ "youtu.be/" ++ "dQw4w9WgXcQ" ++ "?t=42")
  = "https://img.youtube.com/vi/" ++ "dQw4w9WgXcQ" ++ "/hqdefault.jpg".
Proof.
  apply (youtube_short_link "https://" "dQw4w9WgXcQ" "?t=42").
  - reflexivity.
  - reflexivity.
  - reflexivity.
  - reflexivity.
  - right. eexists. reflexivity.
Defined.

(** X15.  A Vimeo link: a start without the letters v and y (as
    "https://"), "vimeo.com/", an id without "?", and nothing more or
    parameters after "?", with no further marker.  It is embedded
    through the Vimeo player on that id. *)
Theorem vimeo_link pre id tail :
  includes "v" pre = false ->
  includes "y" pre = false ->
  includes "?" id = false ->
  includes "youtube.com/watch?v=" (id ++ tail) = false ->
  includes "youtu.be/" (id ++ tail) = false ->
  includes "vimeo.com/" (id ++ tail) = false ->
  tail = "" \/ (exists t, tail = "?" ++ t) ->
  getVideoEmbedUrl (pre ++ "vimeo.com/" ++ id ++ tail)
  = Some ("https://player.vimeo.com/video/" ++ id).
Proof.
  intros Hv Hy Hid Hwatch Hshort Hrest Htail.
  assert (Hnot1 : includes "youtube.com/watch?v="
                    (pre ++ "vimeo.com/" ++ id ++ tail) = false).
  { rewrite (includes_pass "y" _ pre) by exact Hy.
    change (includes "youtube.com/watch?v=" (id ++ tail) = false).
    exact Hwatch. }
  assert (Hnot2 : includes "youtu.be/" (pre ++ "vimeo.com/" ++ id ++ tail)
                  = false).
  { rewrite (includes_pass "y" _ pre) by exact Hy.
    change (includes "youtu.be/" (id ++ tail) = false). exact Hshort. }
  assert (Hvimeo : includes "vimeo.com/" (pre ++ "vimeo.com/" ++ id ++ tail)
                   = true)
    by (apply includes_iff; exists pre, (id ++ tail); reflexivity).
  assert (Hvid : video_id "vimeo.com/" "?" (pre ++ "vimeo.com/" ++ id ++ tail)
                 = Some id)
    by (apply video_id_of; assumption).
  unfold getVideoEmbedUrl. rewrite Hnot1, Hnot2, Hvimeo, Hvid. reflexivity.
Qed.

Lemma vimeo_link_witness :
  getVideoEmbedUrl ("https://" ++ "vimeo.com/" ++ "76979871" ++ "")
  = Some ("https://player.vimeo.com/video/" ++ "76979871").
Proof.
  apply (vimeo_link "https://" "76979871" "").
  - reflexivity.
  - reflexivity.
  - reflexivity.
  - reflexivity.
  - reflexivity.
  - reflexivity.
  - left. reflexivity.
Defined.

(** X22.  The video of a card is shown in a frame exactly when its link
    is one [isYoutube] or [isVimeo] accepts, and as a plain play button
    otherwise: the branch that shows the YouTube thumbnail is never
    taken. *)
Theorem videoTile_never_thumbnail url :
  (forall src, videoTile url <> Thumbnail src) /\
  ((exists src, videoTile url = Frame src) <->
   (isYoutube url || isVimeo url)%bool = true).
Proof.
  unfold videoTile.
  destruct (isYoutube url) eqn:Hy.
  - destruct (youtube_link_id_aux url Hy) as [id ->]. split.
    + intros src. discriminate.
    + split; [reflexivity|]. intros _. eexists. reflexivity.
  - destruct (other_link_embed_aux url Hy) as [H|[id H]]; rewrite H.
    + split; [intros src; discriminate|].
      unfold isVimeo, getVideoEmbedUrl in *. unfold isYoutube in Hy.
      apply orb_false_iff in Hy as [Hw Hs]. rewrite Hw, Hs in H.
      destruct (includes "vimeo.com/" url); [discriminate|].
      split; [intros [src Hsrc]; discriminate|discriminate].
    + split; [intros src; discriminate|].
      unfold isVimeo, getVideoEmbedUrl in *. unfold isYoutube in Hy.
      apply orb_false_iff in Hy as [Hw Hs]. rewrite Hw, Hs in H.
      destruct (includes "vimeo.com/" url); [|discriminate].
      split; [reflexivity|]. intros _. eexists. reflexivity.
Qed.

(** *** What the page shows after a load *)

Section Page.

Variable order : string -> bool -> list jsobj -> list jsobj.

Lemma loadCardData_found cardId db st row :
  missing (Some cardId) = false ->
  published_matches cardId db = [row] ->
  exists cd,
    card cd = row /\
    loadCardData order (Some cardId) db st
    = {| cardData := Some cd; loading := false;
         error_message := error_message st |}.
Proof.
  intros Hpresent Hrow. unfold loadCardData. rewrite Hpresent.
  rewrite (published_card_one _ _ _ _ Hrow). cbn.
  eexists. split; [|reflexivity]. reflexivity.
Qed.

Lemma loadCardData_not_found cardId db st :
  missing (Some cardId) = false ->
  (forall row, published_matches cardId db <> [row]) ->
  loadCardData order (Some cardId) db st
  = {| cardData := cardData st; loading := false;
       error_message := Some "Card not found or not published" |}.
Proof.
  intros Hpresent Hnone. unfold loadCardData, published_card.
  rewrite Hpresent.
  destruct (published_matches cardId db) as [|row [|row' l]];
    [reflexivity| |reflexivity].
  destruct (Hnone row eq_refl).
Qed.

(** X16.  After the first load for a slug, the page shows the card when
    exactly one published row has the slug, and the "Card Not Found"
    page with the message "Card not found or not published" when none
    has it or several have. *)
Theorem page_after_first_load cardId db :
  missing (Some cardId) = false ->
  (forall row, published_matches cardId db = [row] ->
     exists cd, card cd = row /\
       render (loadCardData order (Some cardId) db initial_state)
       = CardShown cd) /\
  ((forall row, published_matches cardId db <> [row]) ->
   render (loadCardData order (Some cardId) db initial_state)
   = CardNotFound "Card not found or not published").
Proof.
  intros Hpresent. split.
  - intros row Hrow.
    destruct (loadCardData_found cardId db initial_state row Hpresent Hrow)
      as [cd [Hcd ->]].
    exists cd. split; [exact Hcd|reflexivity].
  - intros Hnone.
    rewrite (loadCardData_not_found cardId db initial_state Hpresent Hnone).
    reflexivity.
Qed.

(** X17.  An error message once set is never cleared: a later load that
    finds the published card stores it, and the page still shows "Card
    Not Found" with the old message. *)
Theorem error_outlives_later_load cardId db st row e :
  missing (Some cardId) = false ->
  error_message st = Some e -> e <> "" ->
  published_matches cardId db = [row] ->
  render (loadCardData order (Some cardId) db st) = CardNotFound e /\
  exists cd, cardData (loadCardData order (Some cardId) db st) = Some cd /\
             card cd = row.
Proof.
  intros Hpresent He Hne Hrow.
  destruct (loadCardData_found cardId db st row Hpresent Hrow)
    as [cd [Hcd ->]].
  split; [|exists cd; split; [reflexivity|exact Hcd]].
  unfold render. cbn [loading error_message cardData]. rewrite He.
  destruct e; [congruence|reflexivity].
Qed.

Hypothesis order_keeps_rows :
  forall column ascending rows x,
    In x (order column ascending rows) <-> In x rows.

(** X18.  With [.order] a rearrangement of the rows it is given, the
    lists of a card that was found hold exactly the rows of their
    tables that belong to the card and are active, the media items
    being videos besides: no inactive row, no row of another card. *)
Theorem loaded_lists cardId db st row :
  missing (Some cardId) = false ->
  published_matches cardId db = [row] ->
  exists cd,
    cardData (loadCardData order (Some cardId) db st) = Some cd /\
    (forall x, In x (socialLinks cd) <->
       In x (social_links db) /\
       pg_eq (get x "card_id") (get row "id") = true /\
       get x "is_active" = JBool true) /\
    (forall x, In x (mediaItems cd) <->
       In x (media_items db) /\
       pg_eq (get x "card_id") (get row "id") = true /\
       get x "type" = JStr "video" /\
       get x "is_active" = JBool true) /\
    (forall x, In x (reviews cd) <->
       In x (review_links db) /\
       pg_eq (get x "card_id") (get row "id") = true /\
       get x "is_active" = JBool true).
Proof.
  intros Hpresent Hrow. unfold loadCardData. rewrite Hpresent.
  rewrite (published_card_one _ _ _ _ Hrow). cbn.
  eexists. split; [reflexivity|]. cbn.
  split; [|split]; intros x;
    rewrite order_keeps_rows, !in_eq_, ?pg_eq_bool, ?pg_eq_str; tauto.
Qed.

End Page.

Lemma page_after_first_load_witness :
  let row := object [("id", JStr "c1"); ("slug", JStr "alice");
                     ("is_published", JBool true)] in
  let db := {| business_cards := [row];
               social_links := []; media_items := []; review_links := [];
               card_views := [] |} in
  exists cd, card cd = row /\
    render (loadCardData (fun _ _ l => l) (Some "alice") db initial_state)
    = CardShown cd.
Proof.
  apply (proj1 (page_after_first_load (fun _ _ l => l) "alice" _ eq_refl)).
  vm_compute. reflexivity.
Defined.

Lemma error_outlives_later_load_witness :
  let row := object [("id", JStr "c1"); ("slug", JStr "alice");
                     ("is_published", JBool true)] in
  let db := {| business_cards := [row];
               social_links := []; media_items := []; review_links := [];
               card_views := [] |} in
  let st := {| cardData := None; loading := false;
               error_message := Some "Card not found or not published" |} in
  render (loadCardData (fun _ _ l => l) (Some "alice") db st)
  = CardNotFound "Card not found or not published" /\
  exists cd, cardData (loadCardData (fun _ _ l => l) (Some "alice") db st)
             = Some cd /\ card cd = row.
Proof.
  apply error_outlives_later_load.
  - reflexivity.
  - reflexivity.
  - discriminate.
  - vm_compute. reflexivity.
Defined.

Lemma loaded_lists_witness :
  let row := object [("id", JStr "c1"); ("slug", JStr "alice");
                     ("is_published", JBool true)] in
  let db := {| business_cards := [row];
               social_links :=
                 [object [("card_id", JStr "c1"); ("is_active", JBool false)]];
               media_items := []; review_links := []; card_views := [] |} in
  exists cd,
    cardData (loadCardData (fun _ _ l => l) (Some "alice") db initial_state)
    = Some cd /\
    (forall x, In x (socialLinks cd) <->
       In x (social_links db) /\
       pg_eq (get x "card_id") (get row "id") = true /\
       get x "is_active" = JBool true) /\
    (forall x, In x (mediaItems cd) <->
       In x (media_items db) /\
       pg_eq (get x "card_id") (get row "id") = true /\
       get x "type" = JStr "video" /\
       get x "is_active" = JBool true) /\
    (forall x, In x (reviews cd) <->
       In x (review_links db) /\
       pg_eq (get x "card_id") (get row "id") = true /\
       get x "is_active" = JBool true).
Proof.
  apply (loaded_lists (fun _ _ l => l)).
  - intros column ascending rows x. reflexivity.
  - reflexivity.
  - vm_compute. reflexivity.
Defined.

(** *** Counting a view *)

Lemma get_insert_eq (r : jsobj) k v : get (<[k := v]> r) k = v.
Proof. unfold get. rewrite lookup_insert_eq. reflexivity. Qed.

Lemma get_insert_ne (r : jsobj) k k' v :
  k <> k' -> get (<[k := v]> r) k' = get r k'.
Proof. intros H. unfold get. rewrite lookup_insert_ne by exact H. reflexivity. Qed.

Lemma get_object_nil k : get (object []) k = JUndefined.
Proof. unfold get, object. cbn [foldr]. rewrite lookup_empty. reflexivity. Qed.

Lemma get_object_cons k v props k' :
  get (object ((k, v) :: props)) k'
  = if String.eqb k k'
    then match v with JUndefined => get (object props) k' | _ => v end
    else get (object props) k'.
Proof.
  unfold object. cbn [foldr fst snd].
  destruct (String.eqb_spec k k') as [->|Hne];
    destruct v; try reflexivity;
    first [apply get_insert_eq | apply get_insert_ne; exact Hne].
Qed.

(** What a call that finds the card does to the tables. *)
Lemma trackCardView_found cardId userAgent referrer db row :
  missing (Some cardId) = false ->
  published_matches cardId db = [row] ->
  trackCardView (Some cardId) userAgent referrer db
  = {| business_cards :=
         List.map (fun r => if pg_eq (get r "id") (get row "id")
                            then <["view_count" := JNum 1]> r else r)
           (business_cards db);
       social_links := social_links db;
       media_items := media_items db;
       review_links := review_links db;
       card_views :=
         card_views db ++
         [object [("card_id", get row "id");
                  ("visitor_ip", JNull);
                  ("user_agent", JStr userAgent);
                  ("referrer", js_or (JStr referrer) JNull);
                  ("device_type",
                    JStr (if is_mobile userAgent then "mobile"
                          else "desktop"))]] |}.
Proof.
  intros Hpresent Hrow.
  assert (Hone : next_view_count (select (only ["id"]) row) = JNum 1).
  { unfold next_view_count, get. rewrite select_id_no_view_count.
    reflexivity. }
  unfold trackCardView. rewrite Hpresent.
  rewrite (published_card_one _ _ _ _ Hrow). cbn [data].
  rewrite Hone, select_id_get_id. f_equal.
  unfold update_by_id. apply List.map_ext. intros r.
  destruct (pg_eq (get r "id") (get row "id")); [|reflexivity].
  apply object_view_count. discriminate.
Qed.

(** X19.  Unless exactly one published row has the slug (so for an
    unknown slug, for a card that is not published, and for a slug two
    published rows share) a view leaves every table as it was: no view
    row is added and no count is written. *)
Theorem view_not_recorded cardId userAgent referrer db :
  (forall row, published_matches cardId db <> [row]) ->
  trackCardView (Some cardId) userAgent referrer db = db.
Proof.
  intros Hnone. unfold trackCardView, published_card.
  destruct (missing (Some cardId)); [reflexivity|].
  destruct (published_matches cardId db) as [|row [|row' l]];
    [reflexivity| |reflexivity].
  destruct (Hnone row eq_refl).
Qed.

Lemma view_not_recorded_witness :
  let db := {| business_cards :=
                 [object [("id", JStr "c1"); ("slug", JStr "alice");
                          ("is_published", JBool false)]];
               social_links := []; media_items := []; review_links := [];
               card_views := [] |} in
  trackCardView (Some "alice") "Mozilla/5.0" "" db = db.
Proof.
  apply view_not_recorded. intros row H. vm_compute in H. discriminate.
Defined.

(** X20.  A view that is recorded adds one row to [card_views], with the
    id of the card, no address, the user agent, the referrer or NULL
    when there is none, and "mobile" or "desktop"; it leaves the other
    three tables alone; and in [business_cards] it changes nothing but
    the column [view_count] of the rows with the id of the card. *)
Theorem view_recorded_frame cardId userAgent referrer db row :
  missing (Some cardId) = false ->
  published_matches cardId db = [row] ->
  let db' := trackCardView (Some cardId) userAgent referrer db in
  social_links db' = social_links db /\
  media_items db' = media_items db /\
  review_links db' = review_links db /\
  (exists view,
     card_views db' = (card_views db ++ [view])%list /\
     get view "card_id" = get row "id" /\
     get view "visitor_ip" = JNull /\
     get view "user_agent" = JStr userAgent /\
     get view "referrer"
     = (if String.eqb referrer "" then JNull else JStr referrer) /\
     get view "device_type"
     = JStr (if is_mobile userAgent then "mobile" else "desktop")) /\
  (exists change,
     business_cards db' = List.map change (business_cards db) /\
     forall r,
       (forall k, k <> "view_count" -> get (change r) k = get r k) /\
       (pg_eq (get r "id") (get row "id") = false -> change r = r)).
Proof.
  intros Hpresent Hrow db'. unfold db'.
  rewrite (trackCardView_found _ _ _ _ _ Hpresent Hrow).
  cbn [social_links media_items review_links card_views business_cards].
  repeat split.
  - eexists. split; [reflexivity|].
    repeat (rewrite get_object_cons; cbn [String.eqb Ascii.eqb Bool.eqb andb]).
    rewrite get_object_nil. unfold js_or, truthy.
    repeat split.
    + destruct (get row "id"); reflexivity.
    + destruct (String.eqb referrer ""); reflexivity.
  - eexists. split; [reflexivity|]. intros r. split.
    + intros k Hk. destruct (pg_eq (get r "id") (get row "id"));
        [|reflexivity].
      apply get_insert_ne. congruence.
    + intros ->. reflexivity.
Qed.

Lemma view_recorded_frame_witness :
  let row := object [("id", JStr "c1"); ("slug", JStr "alice");
                     ("is_published", JBool true)] in
  let db := {| business_cards := [row];
               social_links := []; media_items := []; review_links := [];
               card_views := [] |} in
  let db' := trackCardView (Some "alice") "iPhone" "" db in
  social_links db' = social_links db /\
  media_items db' = media_items db /\
  review_links db' = review_links db /\
  (exists view,
     card_views db' = (card_views db ++ [view])%list /\
     get view "card_id" = get row "id" /\
     get view "visitor_ip" = JNull /\
     get view "user_agent" = JStr "iPhone" /\
     get view "referrer" = (if String.eqb "" "" then JNull else JStr "") /\
     get view "device_type"
     = JStr (if is_mobile "iPhone" then "mobile" else "desktop")) /\
  (exists change,
     business_cards db' = List.map change (business_cards db) /\
     forall r,
       (forall k, k <> "view_count" -> get (change r) k = get r k) /\
       (pg_eq (get r "id") (get row "id") = false -> change r = r)).
Proof.
  apply view_recorded_frame.
  - reflexivity.
  - vm_compute. reflexivity.
Defined.

Lemma filter_map_swap {A B} (p : B -> bool) (f : A -> B) l :
  List.filter p (List.map f l)
  = List.map f (List.filter (fun x => p (f x)) l).
Proof.
  induction l as [|x l IH]; [reflexivity|]. cbn [List.map List.filter].
  destruct (p (f x)); cbn [List.map]; rewrite IH; reflexivity.
Qed.

Lemma eq__map column v (change : jsobj -> jsobj) rows :
  (forall r, get (change r) column = get r column) ->
  eq_ column v (List.map change rows) = List.map change (eq_ column v rows).
Proof.
  intros Hkeep. unfold eq_. rewrite filter_map_swap. f_equal.
  apply List.filter_ext. intros r. rewrite Hkeep. reflexivity.
Qed.

(** X21.  Views do not add up: after a second view of the same card the
    rows of [business_cards] are what they were after the first, with 1
    as the [view_count] of the card, while [card_views] has gained one
    row for each view. *)
Theorem views_do_not_add_up cardId ua1 ref1 ua2 ref2 db row :
  missing (Some cardId) = false ->
  published_matches cardId db = [row] ->
  let db1 := trackCardView (Some cardId) ua1 ref1 db in
  let db2 := trackCardView (Some cardId) ua2 ref2 db1 in
  business_cards db2 = business_cards db1 /\
  List.length (card_views db2) = (List.length (card_views db) + 2)%nat /\
  forall r, In r (business_cards db2) ->
            pg_eq (get r "id") (get row "id") = true ->
            get r "view_count" = JNum 1.
Proof.
  intros Hpresent Hrow db1 db2.
  pose (change := fun r : jsobj =>
          if pg_eq (get r "id") (get row "id")
          then <["view_count" := JNum 1]> r else r).
  assert (Hkeep : forall k r, k <> "view_count" ->
                              get (change r) k = get r k).
  { intros k r Hk. unfold change.
    destruct (pg_eq (get r "id") (get row "id")); [|reflexivity].
    apply get_insert_ne. congruence. }
  assert (Hdb1 : db1 = _)
    by exact (trackCardView_found cardId ua1 ref1 db row Hpresent Hrow).
  fold change in Hdb1.
  assert (Hrow1 : published_matches cardId db1 = [change row]).
  { rewrite Hdb1. unfold published_matches. cbn [business_cards].
    rewrite !eq__map by (intros r; apply Hkeep; discriminate).
    fold (published_matches cardId db). rewrite Hrow. reflexivity. }
  assert (Hdb2 : db2 = _)
    by exact (trackCardView_found cardId ua2 ref2 db1 (change row)
                Hpresent Hrow1).
  rewrite (Hkeep "id" row) in Hdb2 by discriminate. fold change in Hdb2.
  assert (Hsame : List.map change (business_cards db1) = business_cards db1).
  { rewrite Hdb1. cbn [business_cards]. rewrite List.map_map.
    apply List.map_ext. intros r. unfold change at 1.
    rewrite (Hkeep "id" r) by discriminate. unfold change.
    destruct (pg_eq (get r "id") (get row "id")); [|reflexivity].
    apply insert_insert_eq. }
  rewrite Hdb2. cbn [business_cards card_views]. split; [exact Hsame|].
  split.
  - rewrite Hdb1. cbn [card_views]. rewrite !List.length_app.
    cbn [List.length]. lia.
  - rewrite Hsame, Hdb1. cbn [business_cards].
    intros r Hin Hid. apply List.in_map_iff in Hin as [r0 [<- _]].
    rewrite (Hkeep "id" r0) in Hid by discriminate.
    unfold change. rewrite Hid. apply get_insert_eq.
Qed.

Lemma views_do_not_add_up_witness :
  let row := object [("id", JStr "c1"); ("slug", JStr "alice");
                     ("is_published", JBool true); ("view_count", JNum 7)] in
  let db := {| business_cards := [row];
               social_links := []; media_items := []; review_links := [];
               card_views := [] |} in
  let db1 := trackCardView (Some "alice") "iPhone" "" db in
  let db2 := trackCardView (Some "alice") "Firefox" "" db1 in
  business_cards db2 = business_cards db1 /\
  List.length (card_views db2) = (List.length (card_views db) + 2)%nat /\
  forall r, In r (business_cards db2) ->
            pg_eq (get r "id") (get row "id") = true ->
            get r "view_count" = JNum 1.
Proof.
  apply views_do_not_add_up.
  - reflexivity.
  - vm_compute. reflexivity.
Defined.

End CardPageFacts.
